(** * LaicaFM backend: radio state, connection manager and HTTP handlers

    A shallow embedding of [backend/server.py].  The module-level singletons
    [radio_state] and [manager], the document store and the sockets form one
    explicit [World]; every handler is a computation over it that either
    returns or raises, and what it wrote before raising stays written, as in
    Python. *)

From Stdlib Require Import ZArith PrimFloat Ascii.
From stdpp Require Import base list strings pretty relations.

Local Open Scope string_scope.
Local Open Scope list_scope.
Local Open Scope Z_scope.

(** ** Values *)

(** [datetime.utcnow()] readings: instants on some clock. *)
Definition datetime : Type := Z.

(** A [WebSocket] object; two are equal when they are the same object. *)
Definition WebSocket : Type := nat.

(** What [json.loads] can return (and what [message.get] hands on). *)
#[warnings="-register-all"]
Inductive pyval : Type :=
| PNone
| PBool (b : bool)
| PInt (z : Z)
| PFloat (f : float)
| PStr (s : string)
| PList (items : list pyval)
| PDict (items : list (string * pyval)).

(** Exceptions the handlers meet. *)
Inductive exn : Type :=
| HTTPException (status_code : Z) (detail : string)
| JSONDecodeError
| AttributeError (msg : string)
| TypeError
| ValueError
| IndexError
| ValidationError
| OSError (msg : string)
| RuntimeError
| WebSocketDisconnect.

Inductive result (A : Type) : Type :=
| Ok (a : A)
| Raise (e : exn).
Arguments Ok {A} a.
Arguments Raise {A} e.

(** ** Models (pydantic) *)

Module Song.
Record t : Type := Build {
  id : string;
  title : string;
  artist : string;
  filename : string;
  duration : float;
  file_size : Z;
  upload_date : datetime
}.
End Song.

Module Playlist.
Record t : Type := Build {
  id : string;
  name : string;
  songs : list string;
  created_date : datetime;
  is_active : bool
}.
End Playlist.

Module ChatMessage.
Record t : Type := Build {
  id : string;
  username : string;
  message : string;
  timestamp : datetime
}.
End ChatMessage.

(** ** The document store: the collections the handlers touch, in
    insertion order. *)
Record Db : Type := MkDb {
  db_songs : list Song.t;
  db_playlists : list Playlist.t;
  db_chat_messages : list ChatMessage.t
}.

(** ** Radio state *)
Record RadioState : Type := MkRadioState {
  current_song : option Song.t;
  playlist : list Song.t;
  is_playing : bool;
  is_live : bool;
  listeners : Z;
  current_position : pyval;
  start_time : option datetime
}.

(** [RadioState.__init__] *)
Definition RadioState_init : RadioState :=
  {| current_song := None; playlist := []; is_playing := false;
     is_live := false; listeners := 0; current_position := PFloat 0%float;
     start_time := None |}.

(** ** Outbound payloads and [json.dumps] *)

(** The dicts handed to [ConnectionManager.broadcast]. *)
Inductive payload : Type :=
| RadioStateData (song : option Song.t) (playing live : bool)
                 (count : Z) (position : pyval)
| ChatData (msg : ChatMessage.t).

(** The text of a frame: the payload it serialises. *)
Inductive text : Type := Text (data : payload).

(** [json.dumps(data)] with the default encoder, as [broadcast] calls it.
    The songs of the radio state are built in [play_radio] as the [.dict()]
    of a [Song] model, and [.dict()] keeps the field [upload_date: datetime]
    as a [datetime] object; [chat_msg.dict()] does the same with
    [timestamp].  The default encoder has no case for [datetime] and raises
    [TypeError: Object of type datetime is not JSON serializable].  The rest
    of a snapshot ([None], the booleans, the listener count and a position
    that is the initial [0.0] or came out of [json.loads]) serialises. *)
Definition json_dumps (data : payload) : result text :=
  match data with
  | RadioStateData None _ _ _ _ => Ok (Text data)
  | RadioStateData (Some _) _ _ _ _ => Raise TypeError
  | ChatData _ => Raise TypeError
  end.

(** ** The world *)
Record World : Type := MkWorld {
  radio_state : RadioState;
  active_connections : list WebSocket;   (* manager.active_connections *)
  db : Db;
  sent : list (WebSocket * text);        (* every completed send_text, oldest first *)
  closed : list WebSocket                (* sockets on which send_text raises *)
}.

Definition set_radio_state (f : RadioState → RadioState) (w : World) : World :=
  {| radio_state := f (radio_state w); active_connections := active_connections w;
     db := db w; sent := sent w; closed := closed w |}.

Definition set_active_connections (l : list WebSocket) (w : World) : World :=
  {| radio_state := radio_state w; active_connections := l;
     db := db w; sent := sent w; closed := closed w |}.

Definition set_db (d : Db) (w : World) : World :=
  {| radio_state := radio_state w; active_connections := active_connections w;
     db := d; sent := sent w; closed := closed w |}.

Definition set_sent (s : list (WebSocket * text)) (w : World) : World :=
  {| radio_state := radio_state w; active_connections := active_connections w;
     db := db w; sent := s; closed := closed w |}.

Definition set_closed (c : list WebSocket) (w : World) : World :=
  {| radio_state := radio_state w; active_connections := active_connections w;
     db := db w; sent := sent w; closed := c |}.

Definition with_current_song (s : option Song.t) (r : RadioState) : RadioState :=
  {| current_song := s; playlist := playlist r; is_playing := is_playing r;
     is_live := is_live r; listeners := listeners r;
     current_position := current_position r; start_time := start_time r |}.

Definition with_playlist (l : list Song.t) (r : RadioState) : RadioState :=
  {| current_song := current_song r; playlist := l; is_playing := is_playing r;
     is_live := is_live r; listeners := listeners r;
     current_position := current_position r; start_time := start_time r |}.

Definition with_is_playing (b : bool) (r : RadioState) : RadioState :=
  {| current_song := current_song r; playlist := playlist r; is_playing := b;
     is_live := is_live r; listeners := listeners r;
     current_position := current_position r; start_time := start_time r |}.

Definition with_listeners (n : Z) (r : RadioState) : RadioState :=
  {| current_song := current_song r; playlist := playlist r;
     is_playing := is_playing r; is_live := is_live r; listeners := n;
     current_position := current_position r; start_time := start_time r |}.

Definition with_current_position (p : pyval) (r : RadioState) : RadioState :=
  {| current_song := current_song r; playlist := playlist r;
     is_playing := is_playing r; is_live := is_live r; listeners := listeners r;
     current_position := p; start_time := start_time r |}.

Definition with_start_time (t : option datetime) (r : RadioState) : RadioState :=
  {| current_song := current_song r; playlist := playlist r;
     is_playing := is_playing r; is_live := is_live r; listeners := listeners r;
     current_position := current_position r; start_time := t |}.

(** ** Computations: state that survives an exception *)
Definition M (A : Type) : Type := World → result A * World.

Definition ret {A} (a : A) : M A := λ w, (Ok a, w).
Definition raise {A} (e : exn) : M A := λ w, (Raise e, w).
Definition bind {A B} (m : M A) (k : A → M B) : M B :=
  λ w, match m w with
       | (Ok a, w') => k a w'
       | (Raise e, w') => (Raise e, w')
       end.
Definition lift {A} (r : result A) : M A := λ w, (r, w).
Definition get : M World := λ w, (Ok w, w).
Definition modify (f : World → World) : M unit := λ w, (Ok tt, f w).

(** [try: m  except: h] (a bare [except] when [catches] is constantly true). *)
Definition try_except {A} (m : M A) (catches : exn → bool) (h : M A) : M A :=
  λ w, match m w with
       | (Ok a, w') => (Ok a, w')
       | (Raise e, w') => if catches e then h w' else (Raise e, w')
       end.

#[global] Instance M_ret : MRet M := @ret.
#[global] Instance M_bind : MBind M := λ A B k m, bind m k.

(** [len(l)] *)
Definition len {A} (l : list A) : Z := Z.of_nat (length l).

(** [l.remove(x)]: drops the first occurrence, [ValueError] when there is
    none. *)
Fixpoint list_remove (x : WebSocket) (l : list WebSocket) : option (list WebSocket) :=
  match l with
  | [] => None
  | y :: l' => if decide (y = x) then Some l'
               else match list_remove x l' with
                    | Some r => Some (y :: r)
                    | None => None
                    end
  end.

(** ** ConnectionManager *)

(** [websocket.send_text(message)] *)
Definition send_text (connection : WebSocket) (message : text) : M unit :=
  λ w, if decide (connection ∈ closed w) then (Raise RuntimeError, w)
       else (Ok tt, set_sent (sent w ++ [(connection, message)]) w).

(** [ConnectionManager.disconnect] *)
Definition disconnect (websocket : WebSocket) : M unit :=
  w ← get;
  match list_remove websocket (active_connections w) with
  | None => raise ValueError
  | Some l =>
      modify (set_active_connections l) ;;
      modify (set_radio_state (with_listeners (len l)))
  end.

(** The first loop of [broadcast]: send to each connection, collecting the
    ones whose send raised. *)
Fixpoint send_each (connections : list WebSocket) (message : text)
    (disconnected : list WebSocket) : M (list WebSocket) :=
  match connections with
  | [] => ret disconnected
  | connection :: rest =>
      d ← try_except (send_text connection message ;; ret disconnected)
                     (λ _, true)
                     (ret (disconnected ++ [connection]));
      send_each rest message d
  end.

(** The second loop of [broadcast]. *)
Fixpoint disconnect_each (disconnected : list WebSocket) : M unit :=
  match disconnected with
  | [] => ret tt
  | conn :: rest => disconnect conn ;; disconnect_each rest
  end.

(** [ConnectionManager.broadcast], when no other coroutine touches the
    registry while it awaits its sends; [broadcast_live] below is the same
    code with the other coroutines let in at each [await]. *)
Definition broadcast (data : payload) : M unit :=
  w ← get;
  match active_connections w with
  | [] => ret tt
  | _ :: _ =>
      message ← lift (json_dumps data);
      disconnected ← send_each (active_connections w) message [];
      disconnect_each disconnected
  end.

(** The dict built by [broadcast_radio_state]. *)
Definition state_data (r : RadioState) : payload :=
  RadioStateData (current_song r) (is_playing r) (is_live r) (listeners r)
                 (current_position r).

(** [ConnectionManager.broadcast_radio_state] *)
Definition broadcast_radio_state : M unit :=
  w ← get;
  broadcast (state_data (radio_state w)).

(** [ConnectionManager.connect] *)
Definition connect (websocket : WebSocket) : M unit :=
  w ← get;
  modify (set_active_connections (active_connections w ++ [websocket])) ;;
  w ← get;
  modify (set_radio_state (with_listeners (len (active_connections w)))) ;;
  broadcast_radio_state.

(** ** Document store operations used by the handlers *)

(** [db.playlists.find_one({"is_active": True})] *)
Definition find_one_active (d : Db) : option Playlist.t :=
  head (filter (λ p, Playlist.is_active p = true) (db_playlists d)).

(** [db.songs.find({"id": {"$in": ids}}).to_list(1000)] *)
Definition find_songs_in (ids : list string) (d : Db) : list Song.t :=
  take 1000 (filter (λ s, Song.id s ∈ ids) (db_songs d)).

(** What [update_one] reports. *)
Record UpdateResult : Type := MkUpdateResult {
  matched_count : Z;
  modified_count : Z
}.

(** [db.playlists.update_one({"id": playlist_id}, {"$addToSet": {"songs":
    song_id}})]: the first document with that id is the one matched; the id
    is appended to its [songs] unless it is there already, and only a
    document that changed counts as modified. *)
Fixpoint update_one_addToSet (playlist_id song_id : string)
    (l : list Playlist.t) : list Playlist.t * UpdateResult :=
  match l with
  | [] => ([], MkUpdateResult 0 0)
  | p :: rest =>
      if decide (Playlist.id p = playlist_id) then
        if decide (song_id ∈ Playlist.songs p) then
          (p :: rest, MkUpdateResult 1 0)
        else
          (Playlist.Build (Playlist.id p) (Playlist.name p)
             (Playlist.songs p ++ [song_id]) (Playlist.created_date p)
             (Playlist.is_active p) :: rest,
           MkUpdateResult 1 1)
      else
        let '(rest', r) := update_one_addToSet playlist_id song_id rest in
        (p :: rest', r)
  end.

(** ** HTTP handlers *)

(** The JSON bodies the handlers return. *)
Inductive response : Type :=
| Message (message : string)
| MessageSong (message : string) (song : option Song.t)
| SongBody (song : Song.t).

(** [add_song_to_playlist] *)
Definition add_song_to_playlist (playlist_id song_id : string) : M response :=
  w ← get;
  let '(playlists, result) :=
    update_one_addToSet playlist_id song_id (db_playlists (db w)) in
  modify (set_db (MkDb (db_songs (db w)) playlists (db_chat_messages (db w)))) ;;
  if decide (modified_count result = 0) then
    raise (HTTPException 404 "Playlist no encontrada")
  else
    ret (Message "Canción agregada a la playlist").

(** The first [if] of [play_radio]: load the active playlist when the
    radio has none. *)
Definition load_active_playlist : M unit :=
  w ← get;
  match playlist (radio_state w) with
  | [] =>
      match find_one_active (db w) with
      | Some active_playlist =>
          modify (set_radio_state
                    (with_playlist
                       (find_songs_in (Playlist.songs active_playlist) (db w))))
      | None => ret tt
      end
  | _ :: _ => ret tt
  end.

(** The second [if] of [play_radio]; [now] is what [datetime.utcnow()]
    reads. *)
Definition start_playing (now : datetime) : M unit :=
  w ← get;
  match playlist (radio_state w), is_playing (radio_state w) with
  | first :: _, false =>
      match current_song (radio_state w) with
      | None => modify (set_radio_state (with_current_song (Some first)))
      | Some _ => ret tt
      end ;;
      modify (set_radio_state (with_is_playing true)) ;;
      modify (set_radio_state (with_start_time (Some now))) ;;
      broadcast_radio_state
  | _, _ => ret tt
  end.

(** [play_radio] *)
Definition play_radio (now : datetime) : M response :=
  load_active_playlist ;;
  start_playing now ;;
  w ← get;
  ret (MessageSong "Radio iniciada" (current_song (radio_state w))).

(** [pause_radio] *)
Definition pause_radio : M response :=
  modify (set_radio_state (with_is_playing false)) ;;
  broadcast_radio_state ;;
  ret (Message "Radio pausada").

(** [next((i for i, song in enumerate(playlist) if song["id"] == id), -1)] *)
Definition index_of_id (song_id : string) (l : list Song.t) : Z :=
  match list_find (λ song, Song.id song = song_id) l with
  | Some (i, _) => Z.of_nat i
  | None => -1
  end.

(** The [if] of [next_song]; [now] is what [datetime.utcnow()] reads. *)
Definition advance (now : datetime) : M unit :=
  w ← get;
  match playlist (radio_state w), current_song (radio_state w) with
  | _ :: _, Some current =>
      let current_index := index_of_id (Song.id current) (playlist (radio_state w)) in
      if negb (current_index =? -1)
         && (current_index <? len (playlist (radio_state w)) - 1) then
        match playlist (radio_state w) !! Z.to_nat (current_index + 1) with
        | None => raise IndexError
        | Some song =>
            modify (set_radio_state (with_current_song (Some song))) ;;
            modify (set_radio_state (with_start_time (Some now))) ;;
            modify (set_radio_state (with_current_position (PFloat 0%float))) ;;
            broadcast_radio_state
        end
      else ret tt
  | _, _ => ret tt
  end.

(** [next_song] *)
Definition next_song (now : datetime) : M response :=
  advance now ;;
  w ← get;
  ret (MessageSong "Siguiente canción" (current_song (radio_state w))).

(** ** Upload *)

(** The multipart part FastAPI hands over. *)
Record UploadFile : Type := MkUploadFile {
  content_type : option string;
  upload_filename : string;
  content : list Byte.byte
}.

(** What [MutagenFile(path)] gives: it raises, returns [None], or returns a
    file object whose truth value is whether it has tags, with the text of
    its first [TIT2] and [TPE1] frames and the length in its [info]. *)
Inductive mutagen : Type :=
| MutagenRaises
| MutagenNone
| MutagenFile (has_tags : bool) (TIT2 TPE1 : option string)
              (info_length : option float).

(** What one upload draws from outside: two [uuid.uuid4()] strings, the
    clock, whether the file can be written, and the metadata probe. *)
Record UploadEnv : Type := MkUploadEnv {
  uuid_filename : string;
  uuid_song : string;
  utcnow : datetime;
  write_error : option string;
  probe : mutagen
}.

(** [s.split('.')] *)
Fixpoint split_dot (s : string) : list string :=
  match s with
  | EmptyString => [EmptyString]
  | String c s' =>
      match split_dot s' with
      | [] => []
      | h :: t => if Ascii.eqb c "."%char then EmptyString :: h :: t
                  else String c h :: t
      end
  end.

(** [str(e)]; an [HTTPException] prints as Starlette prints it, status and
    detail. *)
Definition exn_str (e : exn) : string :=
  match e with
  | HTTPException status_code detail => pretty status_code +:+ ": " +:+ detail
  | AttributeError msg | OSError msg => msg
  | JSONDecodeError => "Expecting value"
  | TypeError => "Object of type datetime is not JSON serializable"
  | ValueError => "list.remove(x): x not in list"
  | IndexError => "list index out of range"
  | ValidationError => "validation error"
  | RuntimeError | WebSocketDisconnect => ""
  end.

(** The three assignments of the metadata block, with its own bare
    [except]. *)
Definition extract_metadata (file : UploadFile) (m : mutagen)
    : string * string * float :=
  match m with
  | MutagenRaises => (upload_filename file, "Artista Desconocido", 0%float)
  | MutagenNone => (upload_filename file, "Artista Desconocido", 0%float)
  | MutagenFile has_tags TIT2 TPE1 info_length =>
      (match has_tags, TIT2 with
       | true, Some t => t
       | _, _ => upload_filename file
       end,
       match has_tags, TPE1 with
       | true, Some a => a
       | _, _ => "Artista Desconocido"
       end,
       match has_tags, info_length with
       | true, Some d => d
       | _, _ => 0%float
       end)
  end.

(** The body of the [try] of [upload_song]. *)
Definition upload_song_body (file : UploadFile) (env : UploadEnv) : M response :=
  match content_type file with
  | None => raise (AttributeError "'NoneType' object has no attribute 'startswith'")
  | Some ct =>
      if negb (String.prefix "audio/" ct) then
        raise (HTTPException 400 "Solo se permiten archivos de audio")
      else ret tt
  end ;;
  let file_extension := List.last (split_dot (upload_filename file)) EmptyString in
  let unique_filename := uuid_filename env +:+ "." +:+ file_extension in
  match write_error env with
  | Some msg => raise (OSError msg)
  | None => ret tt
  end ;;
  let '(title, artist, duration) := extract_metadata file (probe env) in
  let song := Song.Build (uuid_song env) title artist unique_filename duration
                         (len (content file)) (utcnow env) in
  w ← get;
  modify (set_db (MkDb (db_songs (db w) ++ [song]) (db_playlists (db w))
                       (db_chat_messages (db w)))) ;;
  ret (SongBody song).

(** [upload_song]: [except Exception as e] around the whole body. *)
Definition upload_song (file : UploadFile) (env : UploadEnv) : M response :=
  λ w, match upload_song_body file env w with
       | (Ok r, w') => (Ok r, w')
       | (Raise e, w') =>
           (Raise (HTTPException 500 ("Error subiendo archivo: " +:+ exn_str e)), w')
       end.

(** ** The live connection *)

(** A received text frame, by what [json.loads] makes of it. *)
Inductive inbound : Type :=
| NotJSON (raw : string)
| JSONText (value : pyval).

(** [json.loads(data)] *)
Definition json_loads (data : inbound) : result pyval :=
  match data with
  | NotJSON _ => Raise JSONDecodeError
  | JSONText value => Ok value
  end.

(** The items of a decoded object, looked up by key. *)
Fixpoint assoc (key : string) (items : list (string * pyval)) : option pyval :=
  match items with
  | [] => None
  | (k, v) :: rest => if decide (k = key) then Some v else assoc key rest
  end.

(** [message.get(key, default)]: only a dict has [get]. *)
Definition py_get (message : pyval) (key : string) (default : pyval) : result pyval :=
  match message with
  | PDict items => Ok (match assoc key items with Some v => v | None => default end)
  | _ => Raise (AttributeError "object has no attribute 'get'")
  end.

(** [value == s] for a string literal [s] *)
Definition py_eq_str (value : pyval) (s : string) : bool :=
  match value with
  | PStr t => bool_decide (t = s)
  | _ => false
  end.

(** Validation of a [str] field of a model (strings pass; pydantic 1 would
    also turn a number into its text). *)
Definition str_field (value : pyval) : result string :=
  match value with
  | PStr s => Ok s
  | _ => Raise ValidationError
  end.

(** The inner [try] of the receive loop, for one frame; [uuid] and [now] are
    what the [ChatMessage] defaults draw. *)
Definition on_text (data : inbound) (uuid : string) (now : datetime) : M unit :=
  try_except
    (message ← lift (json_loads data);
     type1 ← lift (py_get message "type" PNone);
     if py_eq_str type1 "position_update" then
       position ← lift (py_get message "position" (PFloat 0%float));
       modify (set_radio_state (with_current_position position))
     else
       type2 ← lift (py_get message "type" PNone);
       if py_eq_str type2 "chat" then
         username ← lift (py_get message "username" (PStr "Anónimo"));
         body ← lift (py_get message "message" (PStr ""));
         username ← lift (str_field username);
         body ← lift (str_field body);
         let chat_msg := ChatMessage.Build uuid username body now in
         w ← get;
         modify (set_db (MkDb (db_songs (db w)) (db_playlists (db w))
                              (db_chat_messages (db w) ++ [chat_msg]))) ;;
         broadcast (ChatData chat_msg)
       else ret tt)
    (λ e, match e with JSONDecodeError => true | _ => false end)
    (ret tt).

(** What [receive_text] does next: a frame arrives or the peer is gone. *)
Inductive ws_event : Type :=
| TextFrame (data : inbound)
| Gone.

(** Where the coroutine is after an iteration. *)
Inductive handler : Type :=
| Receiving            (* back at [receive_text] *)
| Returned.            (* left through [except WebSocketDisconnect] *)

(** One iteration of the loop of [websocket_endpoint], inside its outer
    [try]; an exception that leaves it ends the coroutine. *)
Definition websocket_iteration (websocket : WebSocket) (ev : ws_event)
    (uuid : string) (now : datetime) : M handler :=
  try_except
    (match ev with
     | Gone => raise WebSocketDisconnect
     | TextFrame data => on_text data uuid now ;; ret Receiving
     end)
    (λ e, match e with WebSocketDisconnect => true | _ => false end)
    (disconnect websocket ;; ret Returned).

(** The first line of [websocket_endpoint], outside the [try]. *)
Definition websocket_open (websocket : WebSocket) : M unit :=
  connect websocket.

(** ** Runs *)

(** One thing that happens to the process. *)
Inductive op : Type :=
| Play (now : datetime)
| Pause
| Next (now : datetime)
| Register (websocket : WebSocket)
| Unregister (websocket : WebSocket)
| Incoming (websocket : WebSocket) (ev : ws_event) (uuid : string) (now : datetime)
| AddSong (playlist_id song_id : string)
| Upload (file : UploadFile) (env : UploadEnv)
| Environment (closed_now : list WebSocket) (db_now : Db).

Definition ReportPosition (websocket : WebSocket) (position : pyval) : op :=
  Incoming websocket
    (TextFrame (JSONText (PDict [("type", PStr "position_update");
                                 ("position", position)])))
    "" 0.

(** The world after [o]; a raised exception leaves what was written. *)
Definition step (o : op) (w : World) : World :=
  match o with
  | Play now => snd (play_radio now w)
  | Pause => snd (pause_radio w)
  | Next now => snd (next_song now w)
  | Register websocket => snd (websocket_open websocket w)
  | Unregister websocket => snd (disconnect websocket w)
  | Incoming websocket ev uuid now => snd (websocket_iteration websocket ev uuid now w)
  | AddSong playlist_id song_id => snd (add_song_to_playlist playlist_id song_id w)
  | Upload file env => snd (upload_song file env w)
  | Environment closed_now db_now => set_closed closed_now (set_db db_now w)
  end.

(** The worlds after each operation of a run, oldest first. *)
Fixpoint trace (ops : list op) (w : World) : list World :=
  match ops with
  | [] => []
  | o :: rest => step o w :: trace rest (step o w)
  end.

Definition run (ops : list op) (w : World) : World :=
  fold_left (λ w o, step o w) ops w.

(** The process at start: the module-level singletons as constructed. *)
Definition initial (d : Db) (c : list WebSocket) : World :=
  {| radio_state := RadioState_init; active_connections := [];
     db := d; sent := []; closed := c |}.

(** [song_id] first occurs in [l] at index [i]: where the generator of
    [next_song] stops. *)
Definition found_at (song_id : string) (l : list Song.t) (i : nat) : Prop :=
  (∃ s, l !! i = Some s ∧ Song.id s = song_id) ∧
  ∀ j s, (j < i)%nat → l !! j = Some s → Song.id s ≠ song_id.

(** ** Sample data *)

Definition song_a : Song.t :=
  Song.Build "a" "Uno" "Ana" "1f0e.mp3" 180%float 4096 100.
Definition song_b : Song.t :=
  Song.Build "b" "Dos" "Ana" "77c2.mp3" 200%float 8192 101.

(** Two songs and an active, still empty playlist. *)
Definition demo_db : Db :=
  MkDb [song_a; song_b] [Playlist.Build "p" "Tarde" [] 50 true] [].

(** The same store once both songs are on the playlist. *)
Definition demo_db_full : Db :=
  MkDb [song_a; song_b] [Playlist.Build "p" "Tarde" ["a"; "b"] 50 true] [].

Definition text_plain_file : UploadFile :=
  MkUploadFile (Some "text/plain") "notas.txt" [].

Definition demo_env : UploadEnv :=
  MkUploadEnv "0b5c" "9d41" 120 None MutagenNone.

(** ** Predicates of the specification *)

(** A radio that is playing has a current song. *)
Definition playing_has_song (w : World) : Prop :=
  is_playing (radio_state w) = true → current_song (radio_state w) ≠ None.

(** [position >= 0], for a position that is a number. *)
Definition position_nonneg (position : pyval) : bool :=
  match position with
  | PInt z => 0 <=? z
  | PFloat f => PrimFloat.leb 0%float f
  | _ => false
  end.

(** The position a frame reports, when it is a position update. *)
Definition reported_position (data : inbound) : option pyval :=
  match data with
  | JSONText (PDict items) =>
      if py_eq_str (match assoc "type" items with Some v => v | None => PNone end)
                   "position_update"
      then Some (match assoc "position" items with
                 | Some v => v
                 | None => PFloat 0%float
                 end)
      else None
  | _ => None
  end.

(** No position update in [o] reports a negative or non-numeric position. *)
Definition reports_nonneg (o : op) : Prop :=
  match o with
  | Incoming _ (TextFrame data) _ _ =>
      match reported_position data with
      | Some position => position_nonneg position = true
      | None => True
      end
  | _ => True
  end.

(** The position in the radio state is a number and not negative. *)
Definition position_ok (w : World) : Prop :=
  position_nonneg (current_position (radio_state w)) = true.

(** ** The fan-out scenario of the specification *)

(** Three listeners have connected to an idle radio, then the second one's
    socket has gone bad; both songs are on the active playlist. *)
Definition three_listeners : World :=
  run [Register 1%nat; Register 2%nat; Register 3%nat;
       Environment [2%nat] demo_db_full]
      (initial demo_db_full []).

(** One listener on an idle radio. *)
Definition one_listener : World :=
  run [Register 1%nat] (initial demo_db []).

(** The frame that carries the radio state [r] with listener count
    [count]. *)
Definition snapshot (r : RadioState) (count : Z) : text :=
  Text (RadioStateData (current_song r) (is_playing r) (is_live r) count
                       (current_position r)).

(** What [o] delivered: the sends that were not in the log before. *)
Definition delivered (o : op) (w : World) : list (WebSocket * text) :=
  drop (length (sent w)) (sent (step o w)).

(** ** Shapes of the world after a handler *)

(** A world that differs from [w] in the registry and the listener count
    at most. *)
Definition registry_changed (l : list WebSocket) (n : Z) (w : World) : World :=
  set_radio_state (with_listeners n) (set_active_connections l w).

(** The radio state after a move to [song] at time [now]. *)
Definition moved_to (song : Song.t) (now : datetime) (r : RadioState) : RadioState :=
  with_current_position (PFloat 0%float)
    (with_start_time (Some now) (with_current_song (Some song) r)).

(** The radio state once playback has started on [first]. *)
Definition started (first : Song.t) (now : datetime) (r : RadioState) : RadioState :=
  with_start_time (Some now)
    (with_is_playing true
       (with_current_song
          (Some (match current_song r with Some s => s | None => first end)) r)).

(** ** The remaining HTTP handlers *)

(** The body of [get_radio_status]. *)
Record RadioStatus : Type := MkRadioStatus {
  status_current_song : option Song.t;
  status_is_playing : bool;
  status_is_live : bool;
  status_listeners : Z;
  status_current_position : pyval;
  status_playlist_length : Z
}.

(** [get_radio_status] *)
Definition get_radio_status : M RadioStatus :=
  w ← get;
  ret {| status_current_song := current_song (radio_state w);
         status_is_playing := is_playing (radio_state w);
         status_is_live := is_live (radio_state w);
         status_listeners := listeners (radio_state w);
         status_current_position := current_position (radio_state w);
         status_playlist_length := len (playlist (radio_state w)) |}.

(** A [datetime] as it comes back from the store: an instant counts
    microseconds, as a Python [datetime] does, and the store keeps
    milliseconds, so the microseconds below the millisecond are cut off. *)
Definition stored_datetime (t : datetime) : datetime := 1000 * (t / 1000).

(** A song document read back and rebuilt as a [Song]. *)
Definition stored_song (s : Song.t) : Song.t :=
  Song.Build (Song.id s) (Song.title s) (Song.artist s) (Song.filename s)
             (Song.duration s) (Song.file_size s)
             (stored_datetime (Song.upload_date s)).

(** A playlist document read back and rebuilt as a [Playlist]. *)
Definition stored_playlist (p : Playlist.t) : Playlist.t :=
  Playlist.Build (Playlist.id p) (Playlist.name p) (Playlist.songs p)
                 (stored_datetime (Playlist.created_date p))
                 (Playlist.is_active p).

(** [get_songs]: [db.songs.find().to_list(1000)], each document rebuilt as
    a [Song]. *)
Definition get_songs : M (list Song.t) :=
  w ← get;
  ret (stored_song <$> take 1000 (db_songs (db w))).

(** [get_playlists] *)
Definition get_playlists : M (list Playlist.t) :=
  w ← get;
  ret (stored_playlist <$> take 1000 (db_playlists (db w))).

(** [create_playlist]; [uuid] and [now] are what the model's defaults
    draw. *)
Definition create_playlist (name uuid : string) (now : datetime) : M Playlist.t :=
  let created := Playlist.Build uuid name [] now false in
  w ← get;
  modify (set_db (MkDb (db_songs (db w)) (db_playlists (db w) ++ [created])
                       (db_chat_messages (db w)))) ;;
  ret created.

(** [db.songs.delete_one({"id": song_id})]: the first document with that
    id goes; the count is what [deleted_count] reports. *)
Fixpoint delete_one_song (song_id : string) (l : list Song.t) : list Song.t * Z :=
  match l with
  | [] => ([], 0)
  | s :: rest =>
      if decide (Song.id s = song_id) then (rest, 1)
      else let '(rest', n) := delete_one_song song_id rest in (s :: rest', n)
  end.

(** [delete_song].  [removable] tells of a file name in the upload
    directory whether the file exists and [unlink] goes through (the bare
    [except] swallows an [unlink] that raises); the second component of the
    result is the file the handler removed, if any. *)
Definition delete_song (song_id : string) (removable : string → bool)
    : M (response * option string) :=
  w ← get;
  let '(remaining, deleted_count) := delete_one_song song_id (db_songs (db w)) in
  modify (set_db (MkDb remaining (db_playlists (db w)) (db_chat_messages (db w)))) ;;
  if decide (deleted_count = 0) then
    raise (HTTPException 404 "Canción no encontrada")
  else
    w ← get;
    let found := take 1 (filter (λ s, Song.id s = song_id) (db_songs (db w))) in
    ret (Message "Canción eliminada",
         match found with
         | s :: _ => if removable (Song.filename s) then Some (Song.filename s)
                     else None
         | [] => None
         end).

(** [send_chat_message] *)
Definition send_chat_message (username message uuid : string) (now : datetime)
    : M ChatMessage.t :=
  let chat_msg := ChatMessage.Build uuid username message now in
  w ← get;
  modify (set_db (MkDb (db_songs (db w)) (db_playlists (db w))
                       (db_chat_messages (db w) ++ [chat_msg]))) ;;
  broadcast (ChatData chat_msg) ;;
  ret chat_msg.

(** ** Runs over the whole API *)

(** A request or event of any kind: the operations above and the other
    endpoints. *)
Inductive call : Type :=
| Core (o : op)
| CreatePlaylist (name uuid : string) (now : datetime)
| DeleteSong (song_id : string) (removable : string → bool)
| SendChatMessage (username message uuid : string) (now : datetime)
| GetSongs
| GetPlaylists
| GetRadioStatus.

Definition step_call (c : call) (w : World) : World :=
  match c with
  | Core o => step o w
  | CreatePlaylist name uuid now => snd (create_playlist name uuid now w)
  | DeleteSong song_id removable => snd (delete_song song_id removable w)
  | SendChatMessage username message uuid now =>
      snd (send_chat_message username message uuid now w)
  | GetSongs => snd (get_songs w)
  | GetPlaylists => snd (get_playlists w)
  | GetRadioStatus => snd (get_radio_status w)
  end.

(** The worlds after each call of a session, oldest first. *)
Fixpoint session (calls : list call) (w : World) : list World :=
  match calls with
  | [] => []
  | c :: rest => step_call c w :: session rest (step_call c w)
  end.

(** [c] is one of the handlers of the program, not a change made behind its
    back. *)
Definition through_api (c : call) : Prop :=
  match c with
  | Core (Environment _ _) => False
  | _ => True
  end.

(** ** More predicates *)

(** The listener count is the size of the registry. *)
Definition listeners_counted (w : World) : Prop :=
  listeners (radio_state w) = len (active_connections w).

(** The current song, when there is one, is an entry of the playlist. *)
Definition current_on_playlist (w : World) : Prop :=
  ∀ s, current_song (radio_state w) = Some s → s ∈ playlist (radio_state w).

(** A radio that is playing knows since when. *)
Definition playing_has_start (w : World) : Prop :=
  is_playing (radio_state w) = true → start_time (radio_state w) ≠ None.

(** No playlist of the store is flagged active. *)
Definition no_active_playlist (d : Db) : Prop :=
  Forall (λ p, Playlist.is_active p = false) (db_playlists d).

(** The radio has never been started: nothing loaded, nothing current, not
    playing. *)
Definition idle (w : World) : Prop :=
  playlist (radio_state w) = [] ∧ current_song (radio_state w) = None ∧
  is_playing (radio_state w) = false.

(** [sep.join(parts)] for the separator ["."] *)
Fixpoint join_dot (parts : list string) : string :=
  match parts with
  | [] => ""
  | [p] => p
  | p :: rest => p +:+ "." +:+ join_dot rest
  end.

(** The character ['.'] occurs in [s]. *)
Fixpoint has_dot (s : string) : bool :=
  match s with
  | EmptyString => false
  | String c s' => Ascii.eqb c "."%char || has_dot s'
  end.

(** The song ids of every playlist of the store are distinct. *)
Definition duplicate_free (d : Db) : Prop :=
  Forall (λ p, NoDup (Playlist.songs p)) (db_playlists d).

(** What the store's endpoints keep when they turn [d] into [d']. *)
Definition store_kept (d d' : Db) : Prop :=
  (no_active_playlist d → no_active_playlist d') ∧
  (duplicate_free d → duplicate_free d').

(** ** The changes a handler is made of *)

(** One change to the world as the handlers make them: a broadcast's sends
    and unregistrations, a registration, and the assignments of [pause_radio],
    [play_radio], [next_song], the position update and the store's
    endpoints, each under the test that guards it in the code. *)
Inductive change (w : World) : World → Prop :=
| change_registry (l : list WebSocket) (n : Z) (s : list (WebSocket * text)) :
    (l = active_connections w ∧ n = listeners (radio_state w)) ∨ n = len l →
    change w (registry_changed l n (set_sent s w))
| change_register (websocket : WebSocket) :
    change w (set_radio_state
                (with_listeners (len (active_connections w ++ [websocket])))
                (set_active_connections (active_connections w ++ [websocket]) w))
| change_pause :
    change w (set_radio_state (with_is_playing false) w)
| change_load (active_playlist : Playlist.t) :
    playlist (radio_state w) = [] →
    find_one_active (db w) = Some active_playlist →
    change w (set_radio_state
                (with_playlist (find_songs_in (Playlist.songs active_playlist) (db w)))
                w)
| change_start (first : Song.t) (rest : list Song.t) (now : datetime) :
    playlist (radio_state w) = first :: rest →
    is_playing (radio_state w) = false →
    change w (set_radio_state (started first now) w)
| change_move (song : Song.t) (now : datetime) :
    song ∈ playlist (radio_state w) →
    change w (set_radio_state (moved_to song now) w)
| change_position (position : pyval) :
    change w (set_radio_state (with_current_position position) w)
| change_store (d : Db) :
    store_kept (db w) d →
    change w (set_db d w).

(** The three invariants of the radio state and the registry together. *)
Definition sound (w : World) : Prop :=
  listeners_counted w ∧ current_on_playlist w ∧ playing_has_start w.


(** The probe found neither a title nor an artist frame, or found no file
    object at all. *)
Definition untagged (m : mutagen) : Prop :=
  match m with
  | MutagenRaises | MutagenNone => True
  | MutagenFile _ TIT2 TPE1 _ => TIT2 = None ∧ TPE1 = None
  end.

(** An upload that passes the content-type test and whose file is
    written. *)
Definition accepted (file : UploadFile) (env : UploadEnv) : Prop :=
  (∃ ct, content_type file = Some ct ∧ String.prefix "audio/" ct = true) ∧
  write_error env = None.

Definition audio_file : UploadFile :=
  MkUploadFile (Some "audio/mpeg") "tema.final.mp3" [].

(** The radio once it has been started on the full store, nobody
    connected. *)
Definition on_air : World := step (Play 10) (initial demo_db_full []).

(** ** The mutating operation of the specification *)



(** ** A broadcast among other coroutines *)

(** What another coroutine does while this one is suspended: its effect on
    the world; what it returns or raises stays with it. *)
Definition elsewhere {A : Type} (other : M A) : M unit :=
  λ w, (Ok tt, snd (other w)).

(** The first loop of [broadcast] with the list iterator written out: the
    iterator is an index [i] into the live [active_connections], read again
    at every step, and each [await connection.send_text(message)] lets the
    other coroutines run; [others] is what they do during the successive
    awaits, and nothing once it is used up. *)
Fixpoint send_each_live (others : list (M unit)) (i : nat) (message : text)
    (disconnected : list WebSocket) : M (list WebSocket) :=
  match others with
  | [] =>
      w ← get;
      send_each (drop i (active_connections w)) message disconnected
  | other :: rest =>
      w ← get;
      match active_connections w !! i with
      | None => ret disconnected
      | Some connection =>
          d ← try_except (send_text connection message ;; ret disconnected)
                         (λ _, true)
                         (ret (disconnected ++ [connection]));
          elsewhere other ;;
          send_each_live rest (S i) message d
      end
  end.

(** [ConnectionManager.broadcast] among other coroutines.  [json.dumps] and
    the second loop do not await, so nothing runs in between there. *)
Definition broadcast_live (others : list (M unit)) (data : payload) : M unit :=
  w ← get;
  match active_connections w with
  | [] => ret tt
  | _ :: _ =>
      message ← lift (json_dumps data);
      disconnected ← send_each_live others 0 message [];
      disconnect_each disconnected
  end.

(** A coroutine that leaves the registry, the listener count, the sockets
    and what was sent as they are. *)
Definition registry_quiet (other : M unit) : Prop :=
  ∀ w : World,
    active_connections (snd (other w)) = active_connections w ∧
    closed (snd (other w)) = closed w ∧
    sent (snd (other w)) = sent w ∧
    listeners (radio_state (snd (other w))) = listeners (radio_state w).

(** The coroutine of [websocket] finds its peer gone and unregisters it. *)
Definition peer_gone (websocket : WebSocket) (uuid : string) (now : datetime)
    : M unit :=
  websocket_iteration websocket Gone uuid now ;; ret tt.

(** A position report arriving on some socket. *)
Definition position_report (position : pyval) : M unit :=
  on_text (JSONText (PDict [("type", PStr "position_update");
                            ("position", position)])) "" 0.

(** Two listeners on an idle radio; the first one's socket has gone bad. *)
Definition first_gone : World :=
  run [Register 1%nat; Register 2%nat; Environment [1%nat] demo_db]
      (initial demo_db []).

(** * Properties *)

(** ** Running computations *)

Ltac run_M :=
  unfold mbind, M_bind, mret, M_ret, bind, ret, raise, lift, get, modify,
    try_except in *; simpl in *.

Lemma set_sent_same (w : World) : set_sent (sent w) w = w.
Proof. by destruct w. Qed.

Lemma list_remove_None (x : WebSocket) (l : list WebSocket) :
  list_remove x l = None ↔ x ∉ l.
Proof.
  induction l as [|y l IH]; simpl.
  - split; [intros _; apply not_elem_of_nil | done].
  - destruct (decide (y = x)) as [->|Hne].
    + split; [done | intros H; destruct H; left].
    + destruct (list_remove x l) eqn:E.
      * split; [done|]. intros H. exfalso. apply not_elem_of_cons in H as [_ H].
        by apply IH in H.
      * split; [|done]. intros _. apply not_elem_of_cons. split; [done|].
        by apply IH.
Qed.

Lemma list_remove_Some (x : WebSocket) (l r : list WebSocket) :
  list_remove x l = Some r →
  ∃ l1 l2, l = l1 ++ (x :: l2) ∧ (x ∉ l1) ∧ r = l1 ++ l2.
Proof.
  revert r. induction l as [|y l IH]; simpl; intros r H; [done|].
  destruct (decide (y = x)) as [->|Hne].
  - injection H as <-. exists [], l. split_and!; [done | apply not_elem_of_nil | done].
  - destruct (list_remove x l) as [r'|] eqn:E; [|done].
    injection H as <-. destruct (IH r' eq_refl) as (l1 & l2 & -> & Hn & ->).
    exists (y :: l1), l2. split_and!; [done | | done].
    apply not_elem_of_cons. by split.
Qed.

Lemma list_remove_is_Some (x : WebSocket) (l : list WebSocket) :
  x ∈ l → is_Some (list_remove x l).
Proof.
  intros H. destruct (list_remove x l) eqn:E; [by eexists|].
  by apply list_remove_None in E.
Qed.

Lemma disconnect_eq (websocket : WebSocket) (w : World) :
  disconnect websocket w =
  match list_remove websocket (active_connections w) with
  | None => (Raise ValueError, w)
  | Some l => (Ok tt, set_radio_state (with_listeners (len l))
                        (set_active_connections l w))
  end.
Proof. unfold disconnect. run_M. by destruct (list_remove _ _). Qed.

(** ** Unregistering *)

(** C5, as the claim has it, fails: unregistering a connection that is not
    in the registry raises [ValueError]. *)
Lemma disconnect_absent_raises :
  (5%nat ∉ active_connections (initial (MkDb [] [] []) [])) ∧
  fst (disconnect 5%nat (initial (MkDb [] [] []) [])) = Raise ValueError.
Proof. split; [apply not_elem_of_nil | reflexivity]. Qed.

(** C5, amended: [disconnect] on a connection that is not in the registry
    raises [ValueError] and leaves the whole world (registry and listener
    count included) as it was; on a connection that is present it returns,
    having removed the first occurrence of it and set the listener count to
    the new length of the registry. *)
Theorem disconnect_spec (websocket : WebSocket) (w : World) :
  (websocket ∉ active_connections w →
     disconnect websocket w = (Raise ValueError, w)) ∧
  (websocket ∈ active_connections w →
     ∃ l1 l2,
       active_connections w = l1 ++ (websocket :: l2) ∧ (websocket ∉ l1) ∧
       disconnect websocket w =
         (Ok tt, set_radio_state (with_listeners (len (l1 ++ l2)))
                   (set_active_connections (l1 ++ l2) w))).
Proof.
  rewrite disconnect_eq. split; intros H.
  - apply list_remove_None in H. by rewrite H.
  - destruct (list_remove_is_Some _ _ H) as [r Hr]. rewrite Hr.
    destruct (list_remove_Some _ _ _ Hr) as (l1 & l2 & E & Hn & ->).
    by exists l1, l2.
Qed.

Lemma disconnect_spec_witness :
  disconnect 5%nat (initial (MkDb [] [] []) []) =
    (Raise ValueError, initial (MkDb [] [] []) []) ∧
  ∃ l1 l2,
    [4%nat; 5%nat; 6%nat] = l1 ++ (5%nat :: l2) ∧ (5%nat ∉ l1) ∧
    disconnect 5%nat (set_active_connections [4%nat; 5%nat; 6%nat]
                        (initial (MkDb [] [] []) [])) =
      (Ok tt, set_radio_state (with_listeners (len (l1 ++ l2)))
                (set_active_connections (l1 ++ l2)
                   (set_active_connections [4%nat; 5%nat; 6%nat]
                      (initial (MkDb [] [] []) [])))).
Proof.
  split.
  - apply (proj1 (disconnect_spec 5%nat (initial (MkDb [] [] []) []))).
    simpl. apply not_elem_of_nil.
  - apply (proj2 (disconnect_spec 5%nat
                    (set_active_connections [4%nat; 5%nat; 6%nat]
                       (initial (MkDb [] [] []) [])))).
    simpl. apply list_elem_of_further, list_elem_of_here.
Defined.

(** ** Adding a song to a playlist *)

(** Whatever the store holds, a song that is already on the first playlist
    with the given id makes [add_song_to_playlist] answer 404 and change
    nothing. *)
Lemma add_song_member_404 (playlist_id song_id : string) (w : World)
    (l1 l2 : list Playlist.t) (p : Playlist.t) :
  db_playlists (db w) = l1 ++ p :: l2 →
  Forall (λ q, Playlist.id q ≠ playlist_id) l1 →
  Playlist.id p = playlist_id →
  song_id ∈ Playlist.songs p →
  fst (add_song_to_playlist playlist_id song_id w) =
    Raise (HTTPException 404 "Playlist no encontrada") ∧
  db (snd (add_song_to_playlist playlist_id song_id w)) = db w.
Proof.
  intros E Hl1 Hid Hin.
  assert (update_one_addToSet playlist_id song_id (l1 ++ p :: l2)
          = (l1 ++ p :: l2, MkUpdateResult 1 0)) as U.
  { clear E. induction Hl1 as [|q l1 Hq _ IH]; simpl.
    - rewrite decide_True by done. by rewrite decide_True by done.
    - rewrite decide_False by done. by rewrite IH. }
  unfold add_song_to_playlist. run_M. rewrite E, U. simpl.
  rewrite <- E. by destruct w as [? ? []].
Qed.

(** C1, on the code: the playlist ["p"] exists and the first add of ["a"]
    succeeds, leaving ["a"] on it once; adding ["a"] again answers 404
    "Playlist no encontrada" although the playlist is there. *)
Theorem add_song_again_is_404 :
  let w0 := initial demo_db [] in
  let w1 := snd (add_song_to_playlist "p" "a" w0) in
  fst (add_song_to_playlist "p" "a" w0) = Ok (Message "Canción agregada a la playlist") ∧
  Playlist.songs <$> db_playlists (db w1) = [["a"]] ∧
  Playlist.id <$> db_playlists (db w1) = ["p"] ∧
  add_song_to_playlist "p" "a" w1 =
    (Raise (HTTPException 404 "Playlist no encontrada"), w1).
Proof. vm_compute. done. Qed.

(** ** Upload *)

(** C4, on the code: the 400 raised for a content type outside [audio/] is
    caught by the handler's own [except Exception] and comes out as a 500
    whose detail quotes it; nothing is stored. *)
Theorem upload_non_audio_is_500 (file : UploadFile) (env : UploadEnv)
    (w : World) (ct : string) :
  content_type file = Some ct →
  String.prefix "audio/" ct = false →
  upload_song file env w =
    (Raise (HTTPException 500
       ("Error subiendo archivo: " +:+
        exn_str (HTTPException 400 "Solo se permiten archivos de audio"))), w).
Proof.
  intros Hct Hp. unfold upload_song, upload_song_body. run_M.
  by rewrite Hct, Hp.
Qed.

Lemma upload_non_audio_is_500_witness :
  upload_song text_plain_file demo_env (initial demo_db []) =
    (Raise (HTTPException 500
       ("Error subiendo archivo: " +:+
        exn_str (HTTPException 400 "Solo se permiten archivos de audio"))),
     initial demo_db []).
Proof.
  apply (upload_non_audio_is_500 text_plain_file demo_env (initial demo_db [])
           "text/plain"); reflexivity.
Defined.

(** ** Broadcasting *)

Lemma registry_changed_same (w : World) :
  registry_changed (active_connections w) (listeners (radio_state w)) w = w.
Proof. by destruct w as [[] ? ? ? ?]. Qed.

(** The first loop sends to the open sockets in order and collects the
    others. *)
Lemma send_each_eq (connections : list WebSocket) (message : text)
    (disconnected : list WebSocket) (w : World) :
  send_each connections message disconnected w =
    (Ok (disconnected ++ filter (λ c, c ∈ closed w) connections),
     set_sent (sent w ++ ((λ c, (c, message)) <$>
                            filter (λ c, c ∉ closed w) connections)) w).
Proof.
  revert disconnected w.
  induction connections as [|c cs IH]; intros d w; simpl.
  - rewrite !app_nil_r. by rewrite set_sent_same.
  - unfold send_text. run_M. rewrite !filter_cons.
    destruct (decide (c ∈ closed w)) as [Hc|Hc].
    + rewrite decide_False by (intros H; by apply H).
      rewrite IH. by rewrite <- app_assoc.
    + rewrite decide_True by done.
      rewrite IH. simpl. rewrite <- app_assoc. reflexivity.
Qed.

(** The second loop touches the registry and the listener count only. *)
Lemma disconnect_each_frame (disconnected : list WebSocket) (w : World) :
  ∃ l n, snd (disconnect_each disconnected w) = registry_changed l n w.
Proof.
  revert w. induction disconnected as [|c ds IH]; intros w; simpl.
  - exists (active_connections w), (listeners (radio_state w)).
    by rewrite registry_changed_same.
  - run_M. rewrite disconnect_eq.
    destruct (list_remove c (active_connections w)) as [l|]; simpl.
    + destruct (IH (registry_changed l (len l) w)) as (l' & n' & E).
      exists l', n'. unfold registry_changed in *. rewrite E. reflexivity.
    + exists (active_connections w), (listeners (radio_state w)).
      by rewrite registry_changed_same.
Qed.

(** What a broadcast leaves behind: the frames it delivered, which are the
    serialised payload to each open socket of the registry when the payload
    serialises and none otherwise, and a registry that may have shrunk. *)
Lemma broadcast_frame (data : payload) (w : World) :
  ∃ l n,
    snd (broadcast data w) =
      registry_changed l n
        (set_sent (sent w ++
           match json_dumps data with
           | Ok message =>
               (λ c, (c, message)) <$>
                 filter (λ c, c ∉ closed w) (active_connections w)
           | Raise _ => []
           end) w).
Proof.
  unfold broadcast. run_M.
  destruct (active_connections w) as [|c0 cs] eqn:Ea.
  { exists [], (listeners (radio_state w)).
    assert (∀ m : text, (λ c : WebSocket, (c, m)) <$> filter (λ c, c ∉ closed w) [] = [])
      as E by done.
    destruct (json_dumps data); rewrite ?E, app_nil_r, set_sent_same; simpl;
      rewrite <- Ea; by rewrite registry_changed_same. }
  destruct (json_dumps data) as [message|e] eqn:Ej.
  2:{ exists (c0 :: cs), (listeners (radio_state w)).
      rewrite app_nil_r, set_sent_same. rewrite <- Ea.
      by rewrite registry_changed_same. }
  rewrite <- Ea. rewrite send_each_eq. simpl.
  match goal with |- context [disconnect_each ?d ?w1] =>
    destruct (disconnect_each_frame d w1) as (l & n & E);
    destruct (disconnect_each d w1) as [r w2] end.
  simpl in E. subst w2. exists l, n. rewrite Ea. by destruct r.
Qed.

(** With a song in the radio state the snapshot does not serialise: the
    broadcast raises before the first send, unless nobody is registered. *)
Lemma broadcast_radio_state_song (w : World) (s : Song.t) :
  current_song (radio_state w) = Some s →
  broadcast_radio_state w =
    (match active_connections w with [] => Ok tt | _ :: _ => Raise TypeError end, w).
Proof.
  intros Hs. unfold broadcast_radio_state, broadcast, state_data. run_M.
  rewrite Hs. by destruct (active_connections w).
Qed.

(** ** Advancing *)

Lemma index_of_id_found (song_id : string) (l : list Song.t) (i : nat) :
  found_at song_id l i → index_of_id song_id l = Z.of_nat i.
Proof.
  intros [(s & Hs & Hid) Hfirst]. unfold index_of_id.
  assert (list_find (λ song, Song.id song = song_id) l = Some (i, s)) as ->; [|done].
  apply list_find_Some. split_and!; [done..|].
  intros j y Hy Hj. by apply (Hfirst j y).
Qed.

Lemma index_of_id_absent (song_id : string) (l : list Song.t) :
  (∀ s, s ∈ l → Song.id s ≠ song_id) → index_of_id song_id l = -1.
Proof.
  intros H. unfold index_of_id.
  assert (list_find (λ song, Song.id song = song_id) l = None) as ->; [|done].
  apply list_find_None, Forall_forall. intros s Hs. by apply H.
Qed.

Lemma index_of_id_lower (song_id : string) (l : list Song.t) :
  -1 ≤ index_of_id song_id l.
Proof. unfold index_of_id. destruct (list_find _ _) as [[i ?]|]; lia. Qed.

(** [advance] either does nothing or moves to some song; in the second case
    the broadcast that follows raises or has nobody to send to. *)
Lemma advance_cases (now : datetime) (w : World) :
  advance now w = (Ok tt, w) ∨
  ∃ song,
    advance now w =
      (match active_connections w with [] => Ok tt | _ :: _ => Raise TypeError end,
       set_radio_state (moved_to song now) w).
Proof.
  unfold advance. run_M.
  destruct (playlist (radio_state w)) as [|s0 l] eqn:El; [by left|].
  destruct (current_song (radio_state w)) as [cur|] eqn:Ec; [|by left].
  destruct (negb _ && _) eqn:G; [|by left].
  destruct (_ !! _) as [song|] eqn:Es.
  - right. exists song.
    by rewrite (broadcast_radio_state_song _ song) by done.
  - (* the guard has checked the index *)
    exfalso. apply andb_true_iff in G as [G1 G2].
    apply negb_true_iff, Z.eqb_neq in G1. apply Z.ltb_lt in G2.
    pose proof (index_of_id_lower (Song.id cur) (s0 :: l)) as Hlow.
    apply lookup_ge_None in Es. unfold len in G2. lia.
Qed.

(** C10: for every world and clock reading, [next_song] leaves [is_playing]
    (so a paused radio stays paused), the playlist, the listener count and
    [is_live] as they were, and the registry too; only [current_song],
    [start_time] and [current_position] can differ afterwards. *)
Theorem next_song_frame (now : datetime) (w : World) :
  is_playing (radio_state (snd (next_song now w))) = is_playing (radio_state w) ∧
  playlist (radio_state (snd (next_song now w))) = playlist (radio_state w) ∧
  listeners (radio_state (snd (next_song now w))) = listeners (radio_state w) ∧
  is_live (radio_state (snd (next_song now w))) = is_live (radio_state w) ∧
  active_connections (snd (next_song now w)) = active_connections w.
Proof.
  unfold next_song. run_M.
  destruct (advance_cases now w) as [->|(song & ->)]; [done|].
  destruct (active_connections w) eqn:E; simpl; by rewrite ?E.
Qed.

(** C8: when the current song is found by id at index [i] and there is an
    entry at [i + 1], [next_song] makes that entry the current song, sets
    [start_time] to now and [current_position] to 0; when no song is
    current, or the current song's id is not on the playlist, or it is found
    at the last index, [next_song] returns the current song and changes
    nothing at all: it neither wraps to the first entry nor stops
    playback. *)
Theorem next_song_spec (now : datetime) (w : World) :
  (∀ cur i nxt,
     current_song (radio_state w) = Some cur →
     found_at (Song.id cur) (playlist (radio_state w)) i →
     playlist (radio_state w) !! S i = Some nxt →
     current_song (radio_state (snd (next_song now w))) = Some nxt ∧
     start_time (radio_state (snd (next_song now w))) = Some now ∧
     current_position (radio_state (snd (next_song now w))) = PFloat 0%float) ∧
  (current_song (radio_state w) = None ∨
   (∃ cur, current_song (radio_state w) = Some cur ∧
           ∀ s, s ∈ playlist (radio_state w) → Song.id s ≠ Song.id cur) ∨
   (∃ cur i, current_song (radio_state w) = Some cur ∧
             found_at (Song.id cur) (playlist (radio_state w)) i ∧
             S i = length (playlist (radio_state w))) →
   next_song now w =
     (Ok (MessageSong "Siguiente canción" (current_song (radio_state w))), w)).
Proof.
  split.
  - intros cur i nxt Hc Hf Hn. unfold next_song, advance. run_M.
    rewrite Hc. destruct (playlist (radio_state w)) as [|s0 l] eqn:El; [done|].
    rewrite (index_of_id_found _ _ _ Hf).
    pose proof (lookup_lt_Some _ _ _ Hn) as Hlt.
    replace (negb (Z.of_nat i =? -1) && (Z.of_nat i <? len (s0 :: l) - 1))
      with true.
    2:{ symmetry. apply andb_true_iff. split.
        - apply negb_true_iff, Z.eqb_neq. lia.
        - apply Z.ltb_lt. unfold len. lia. }
    replace (Z.to_nat (Z.of_nat i + 1)) with (S i) by lia.
    rewrite Hn.
    rewrite (broadcast_radio_state_song _ nxt) by done.
    simpl. by destruct (active_connections w).
  - intros H. unfold next_song, advance. run_M.
    destruct (playlist (radio_state w)) as [|s0 l] eqn:El; [done|].
    destruct H as [Hc|[(cur & Hc & Habs)|(cur & i & Hc & Hf & Hlast)]];
      rewrite Hc; [by rewrite ?Hc| |].
    + rewrite (index_of_id_absent _ _ Habs). simpl. by rewrite Hc.
    + rewrite (index_of_id_found _ _ _ Hf).
      replace (Z.of_nat i <? len (s0 :: l) - 1) with false.
      * rewrite andb_false_r. by rewrite Hc.
      * symmetry. apply Z.ltb_ge. unfold len. lia.
Qed.

(** The two-song playlist of the specification: from the first song
    [next_song] moves to the second, from the second it stays. *)
Lemma next_song_spec_witness :
  (current_song (radio_state (snd (next_song 7
      (set_radio_state (with_current_song (Some song_a))
         (set_radio_state (with_playlist [song_a; song_b]) (initial demo_db []))))))
     = Some song_b ∧
   start_time (radio_state (snd (next_song 7
      (set_radio_state (with_current_song (Some song_a))
         (set_radio_state (with_playlist [song_a; song_b]) (initial demo_db []))))))
     = Some 7 ∧
   current_position (radio_state (snd (next_song 7
      (set_radio_state (with_current_song (Some song_a))
         (set_radio_state (with_playlist [song_a; song_b]) (initial demo_db []))))))
     = PFloat 0%float) ∧
  next_song 7
    (set_radio_state (with_current_song (Some song_b))
       (set_radio_state (with_playlist [song_a; song_b]) (initial demo_db []))) =
  (Ok (MessageSong "Siguiente canción" (Some song_b)),
   set_radio_state (with_current_song (Some song_b))
     (set_radio_state (with_playlist [song_a; song_b]) (initial demo_db []))).
Proof.
  split.
  - apply (proj1 (next_song_spec 7
             (set_radio_state (with_current_song (Some song_a))
                (set_radio_state (with_playlist [song_a; song_b])
                   (initial demo_db [])))) song_a 0%nat song_b).
    + reflexivity.
    + split; [by exists song_a | intros j s Hj; lia].
    + reflexivity.
  - apply (proj2 (next_song_spec 7
             (set_radio_state (with_current_song (Some song_b))
                (set_radio_state (with_playlist [song_a; song_b])
                   (initial demo_db []))))).
    right. right. exists song_b, 1%nat. split; [reflexivity|]. split; [|reflexivity].
    split; [by exists song_b|].
    intros j s Hj Hs. destruct j as [|[|j]]; [|lia|lia].
    injection Hs as <-. discriminate.
Defined.

(** ** What each handler does to the radio state *)

Lemma with_listeners_same (r : RadioState) : with_listeners (listeners r) r = r.
Proof. by destruct r. Qed.

Lemma broadcast_radio (data : payload) (w : World) :
  ∃ n, radio_state (snd (broadcast data w)) = with_listeners n (radio_state w).
Proof.
  destruct (broadcast_frame data w) as (l & n & ->). by exists n.
Qed.

Lemma broadcast_radio_state_radio (w : World) :
  ∃ n, radio_state (snd (broadcast_radio_state w)) = with_listeners n (radio_state w).
Proof. apply broadcast_radio. Qed.

Lemma disconnect_radio (websocket : WebSocket) (w : World) :
  ∃ n, radio_state (snd (disconnect websocket w)) = with_listeners n (radio_state w).
Proof.
  rewrite disconnect_eq. destruct (list_remove _ _) as [l|]; simpl.
  - by eexists.
  - exists (listeners (radio_state w)). by rewrite with_listeners_same.
Qed.

Lemma connect_radio (websocket : WebSocket) (w : World) :
  ∃ n, radio_state (snd (connect websocket w)) = with_listeners n (radio_state w).
Proof.
  unfold connect. run_M.
  match goal with |- context [broadcast_radio_state ?w1] =>
    destruct (broadcast_radio_state_radio w1) as [n E] end.
  exists n. rewrite E. reflexivity.
Qed.

Lemma pause_radio_radio (w : World) :
  ∃ n, radio_state (snd (pause_radio w)) =
       with_listeners n (with_is_playing false (radio_state w)).
Proof.
  unfold pause_radio. run_M.
  match goal with |- context [broadcast_radio_state ?w1] =>
    destruct (broadcast_radio_state_radio w1) as [n E];
    destruct (broadcast_radio_state w1) as [[] w2] end;
  simpl in *; exists n; by rewrite E.
Qed.

Lemma next_song_radio (now : datetime) (w : World) :
  radio_state (snd (next_song now w)) = radio_state w ∨
  ∃ song, radio_state (snd (next_song now w)) = moved_to song now (radio_state w).
Proof.
  unfold next_song. run_M.
  destruct (advance_cases now w) as [->|(song & ->)]; [by left|].
  right. exists song. by destruct (active_connections w).
Qed.

Lemma load_active_playlist_eq (w : World) :
  ∃ l, load_active_playlist w = (Ok tt, set_radio_state (with_playlist l) w).
Proof.
  unfold load_active_playlist. run_M.
  assert (set_radio_state (with_playlist (playlist (radio_state w))) w = w) as Same
    by by destruct w as [[] ? ? ? ?].
  destruct (playlist (radio_state w)) eqn:El.
  - destruct (find_one_active (db w)); [by eexists|].
    exists []. by rewrite Same.
  - eexists. by rewrite Same.
Qed.

Lemma start_playing_cases (now : datetime) (w : World) :
  start_playing now w = (Ok tt, w) ∨
  ∃ first,
    start_playing now w =
      (match active_connections w with [] => Ok tt | _ :: _ => Raise TypeError end,
       set_radio_state (started first now) w).
Proof.
  unfold start_playing. run_M.
  destruct (playlist (radio_state w)) as [|first l]; [by left|].
  destruct (is_playing (radio_state w)); [by left|].
  right. exists first. unfold started.
  destruct (current_song (radio_state w)) as [s|] eqn:Ec; simpl.
  - rewrite (broadcast_radio_state_song _ s) by done. simpl.
    f_equal. destruct w as [[] ? ? ? ?]. simpl in *. by subst.
  - rewrite (broadcast_radio_state_song _ first) by done. simpl.
    f_equal. destruct w as [[] ? ? ? ?]. simpl in *. by subst.
Qed.

Lemma play_radio_radio (now : datetime) (w : World) :
  ∃ l, radio_state (snd (play_radio now w)) = with_playlist l (radio_state w) ∨
       ∃ first, radio_state (snd (play_radio now w)) =
                started first now (with_playlist l (radio_state w)).
Proof.
  unfold play_radio. run_M.
  destruct (load_active_playlist_eq w) as [l ->]. exists l.
  destruct (start_playing_cases now (set_radio_state (with_playlist l) w))
    as [->|(first & ->)]; [by left|].
  right. exists first. simpl. by destruct (active_connections w).
Qed.

Lemma on_text_radio (data : inbound) (uuid : string) (now : datetime) (w : World) :
  match reported_position data with
  | Some position =>
      on_text data uuid now w =
        (Ok tt, set_radio_state (with_current_position position) w)
  | None =>
      ∃ n, radio_state (snd (on_text data uuid now w)) =
           with_listeners n (radio_state w)
  end.
Proof.
  assert (∃ n, radio_state w = with_listeners n (radio_state w)) as Same
    by (exists (listeners (radio_state w)); by rewrite with_listeners_same).
  unfold on_text, reported_position. run_M.
  destruct data as [raw|[ | | | | | |items]]; simpl; try done.
  destruct (py_eq_str _ "position_update"); [done|].
  destruct (py_eq_str _ "chat"); [|done].
  destruct (str_field _) as [username|e]; simpl; [|by destruct e].
  destruct (str_field _) as [body|e]; simpl; [|by destruct e].
  match goal with |- context [broadcast ?d ?w1] =>
    destruct (broadcast_radio d w1) as [n E];
    destruct (broadcast d w1) as [[[]|e] w2] end;
  simpl in *; exists n; rewrite <- E; [done|by destruct e].
Qed.

Lemma websocket_iteration_radio (websocket : WebSocket) (ev : ws_event)
    (uuid : string) (now : datetime) (w : World) :
  match ev with
  | TextFrame data =>
      match reported_position data with
      | Some position =>
          radio_state (snd (websocket_iteration websocket (TextFrame data) uuid now w)) =
          with_current_position position (radio_state w)
      | None =>
          ∃ n, radio_state (snd (websocket_iteration websocket (TextFrame data) uuid now w)) =
               with_listeners n (radio_state w)
      end
  | Gone =>
      ∃ n, radio_state (snd (websocket_iteration websocket Gone uuid now w)) =
           with_listeners n (radio_state w)
  end.
Proof.
  unfold websocket_iteration. destruct ev as [data|]; run_M.
  - pose proof (on_text_radio data uuid now w) as H.
    destruct (reported_position data) as [position|].
    + by rewrite H.
    + destruct H as [n E]. destruct (on_text data uuid now w) as [[[]|e] w1];
        simpl in *; [by exists n|].
      destruct e; try by exists n.
      destruct (disconnect_radio websocket w1) as [m Em].
      destruct (disconnect websocket w1) as [[] w2]; simpl in *;
        exists m; by rewrite Em, E.
  - destruct (disconnect_radio websocket w) as [m Em].
    destruct (disconnect websocket w) as [[] w2]; simpl in *; by exists m.
Qed.

Lemma add_song_to_playlist_radio (playlist_id song_id : string) (w : World) :
  radio_state (snd (add_song_to_playlist playlist_id song_id w)) = radio_state w.
Proof.
  unfold add_song_to_playlist. run_M.
  destruct (update_one_addToSet _ _ _) as [l r]. simpl.
  by destruct (decide _).
Qed.

Lemma upload_song_radio (file : UploadFile) (env : UploadEnv) (w : World) :
  radio_state (snd (upload_song file env w)) = radio_state w.
Proof.
  unfold upload_song, upload_song_body. run_M.
  destruct (content_type file) as [ct|]; simpl; [|done].
  destruct (negb _); simpl; [done|].
  destruct (write_error env); simpl; [done|].
  by destruct (extract_metadata _ _) as [[? ?] ?].
Qed.

(** ** The playing invariant *)

Lemma playing_has_song_listeners (n : Z) (w w' : World) :
  radio_state w' = with_listeners n (radio_state w) →
  playing_has_song w → playing_has_song w'.
Proof. unfold playing_has_song. intros ->. done. Qed.

Lemma playing_has_song_step (o : op) (w : World) :
  playing_has_song w → playing_has_song (step o w).
Proof.
  intros Inv. destruct o as [now| |now|ws|ws|ws ev uuid now|pid sid|file env|c d];
    simpl.
  - destruct (play_radio_radio now w) as [l [E|[first E]]];
      unfold playing_has_song in *; rewrite E; simpl; [done|].
    intros _. by destruct (current_song (radio_state w)).
  - destruct (pause_radio_radio w) as [n E].
    unfold playing_has_song. by rewrite E.
  - destruct (next_song_radio now w) as [E|[song E]];
      unfold playing_has_song in *; rewrite E; simpl; done.
  - destruct (connect_radio ws w) as [n E].
    by apply (playing_has_song_listeners n w).
  - destruct (disconnect_radio ws w) as [n E].
    by apply (playing_has_song_listeners n w).
  - pose proof (websocket_iteration_radio ws ev uuid now w) as H.
    destruct ev as [data|].
    + destruct (reported_position data) as [position|].
      * unfold playing_has_song in *. by rewrite H.
      * destruct H as [n E]. by apply (playing_has_song_listeners n w).
    + destruct H as [n E]. by apply (playing_has_song_listeners n w).
  - unfold playing_has_song. by rewrite add_song_to_playlist_radio.
  - unfold playing_has_song. by rewrite upload_song_radio.
  - done.
Qed.

Lemma playing_has_song_trace (ops : list op) (w : World) :
  playing_has_song w → Forall playing_has_song (trace ops w).
Proof.
  revert w. induction ops as [|o ops IH]; intros w Inv; simpl; constructor.
  - by apply playing_has_song_step.
  - by apply IH, playing_has_song_step.
Qed.

(** C7: from the initial state, whatever the store and the sockets do, after
    every operation of every run (play, pause, next, connections coming and
    going, frames of any kind, the store's endpoints) a radio that is
    playing has a current song. *)
Theorem playing_has_song_always (ops : list op) (d : Db) (c : list WebSocket) :
  Forall playing_has_song (trace ops (initial d c)).
Proof. apply playing_has_song_trace. intros H. discriminate H. Qed.

(** ** Reported positions *)

Lemma reported_position_update (position : pyval) :
  reported_position
    (JSONText (PDict [("type", PStr "position_update"); ("position", position)]))
  = Some position.
Proof. reflexivity. Qed.

(** C3, as the claim has it, fails: a listener connects and reports -5, and
    -5 is the position afterwards. *)
Lemma negative_position_kept :
  current_position (radio_state
    (run [Register 1%nat; ReportPosition 1%nat (PInt (-5))] (initial demo_db [])))
  = PInt (-5) ∧
  ¬ position_ok
      (run [Register 1%nat; ReportPosition 1%nat (PInt (-5))] (initial demo_db [])).
Proof. split; [reflexivity | unfold position_ok; vm_compute; discriminate]. Qed.

Lemma position_ok_listeners (n : Z) (w w' : World) :
  radio_state w' = with_listeners n (radio_state w) →
  position_ok w → position_ok w'.
Proof. unfold position_ok. intros ->. done. Qed.

Lemma position_ok_step (o : op) (w : World) :
  reports_nonneg o → position_ok w → position_ok (step o w).
Proof.
  intros Ho Inv.
  destruct o as [now| |now|ws|ws|ws ev uuid now|pid sid|file env|c d]; simpl.
  - destruct (play_radio_radio now w) as [l [E|[first E]]];
      unfold position_ok in *; by rewrite E.
  - destruct (pause_radio_radio w) as [n E]. unfold position_ok in *. by rewrite E.
  - destruct (next_song_radio now w) as [E|[song E]];
      unfold position_ok in *; by rewrite E.
  - destruct (connect_radio ws w) as [n E]. by apply (position_ok_listeners n w).
  - destruct (disconnect_radio ws w) as [n E]. by apply (position_ok_listeners n w).
  - pose proof (websocket_iteration_radio ws ev uuid now w) as H.
    destruct ev as [data|]; simpl in Ho.
    + destruct (reported_position data) as [position|].
      * unfold position_ok. by rewrite H.
      * destruct H as [n E]. by apply (position_ok_listeners n w).
    + destruct H as [n E]. by apply (position_ok_listeners n w).
  - unfold position_ok. by rewrite add_song_to_playlist_radio.
  - unfold position_ok. by rewrite upload_song_radio.
  - done.
Qed.

(** C3, amended: a position update stores the reported value as it is,
    negative or not (there is no clamping); the position is a non-negative
    number after every operation of a run in which no position update
    reported anything else. *)
Theorem report_position_stored :
  (∀ (websocket : WebSocket) (position : pyval) (w : World),
     current_position (radio_state (step (ReportPosition websocket position) w))
     = position) ∧
  (∀ (ops : list op) (d : Db) (c : list WebSocket),
     Forall reports_nonneg ops →
     Forall position_ok (trace ops (initial d c))).
Proof.
  split.
  - intros ws position w. unfold ReportPosition, step.
    pose proof (websocket_iteration_radio ws
      (TextFrame (JSONText (PDict [("type", PStr "position_update");
                                   ("position", position)]))) "" 0 w) as H.
    cbv beta iota in H. rewrite reported_position_update in H. by rewrite H.
  - intros ops d c Hops.
    assert (position_ok (initial d c)) as Inv by reflexivity.
    revert Inv. generalize (initial d c).
    induction Hops as [|o ops Ho _ IH]; intros w Inv; simpl; constructor.
    + by apply position_ok_step.
    + by apply IH, position_ok_step.
Qed.

Lemma report_position_stored_witness :
  current_position (radio_state
    (step (ReportPosition 1%nat (PFloat (-2.5)%float)) (initial demo_db [])))
  = PFloat (-2.5)%float ∧
  Forall position_ok
    (trace [Register 1%nat; ReportPosition 1%nat (PFloat 12.5%float); Next 3]
           (initial demo_db [])).
Proof.
  split.
  - apply (proj1 report_position_stored).
  - apply (proj2 report_position_stored).
    repeat constructor.
Defined.

(** ** Frames that are not understood *)

(** A frame that is not JSON at all is dropped: the loop goes on and nothing
    has changed. *)
Lemma not_json_dropped (websocket : WebSocket) (raw uuid : string)
    (now : datetime) (w : World) :
  websocket_iteration websocket (TextFrame (NotJSON raw)) uuid now w =
    (Ok Receiving, w).
Proof. reflexivity. Qed.

(** So is an object whose [type] is neither of the two known tags. *)
Lemma unknown_tag_dropped (websocket : WebSocket) (items : list (string * pyval))
    (uuid : string) (now : datetime) (w : World) :
  py_eq_str (match assoc "type" items with Some v => v | None => PNone end)
            "position_update" = false →
  py_eq_str (match assoc "type" items with Some v => v | None => PNone end)
            "chat" = false →
  websocket_iteration websocket (TextFrame (JSONText (PDict items))) uuid now w =
    (Ok Receiving, w).
Proof.
  intros H1 H2. unfold websocket_iteration, on_text. run_M. by rewrite H1, H2.
Qed.

(** C6, on the code: a frame holding a JSON array (the same goes for a
    number, a string, [true] or [null]) decodes, so [json.loads] does not
    raise, but the value has no [get]: the [AttributeError] passes both
    [except] clauses and ends the coroutine.  The socket is still in the
    registry afterwards, since the world is as it was. *)
Theorem json_array_frame_raises (websocket : WebSocket) (items : list pyval)
    (uuid : string) (now : datetime) (w : World) :
  websocket_iteration websocket (TextFrame (JSONText (PList items))) uuid now w =
    (Raise (AttributeError "object has no attribute 'get'"), w).
Proof. reflexivity. Qed.

(** ** Best-effort delivery *)

Lemma list_remove_app_cons (x : WebSocket) (pre l : list WebSocket) :
  x ∉ pre → list_remove x (pre ++ x :: l) = Some (pre ++ l).
Proof.
  induction pre as [|y pre IH]; simpl; intros Hx.
  - by rewrite decide_True.
  - apply not_elem_of_cons in Hx as [Hne Hx].
    rewrite decide_False by done. by rewrite IH.
Qed.

Lemma filter_closed_nil (cl l : list WebSocket) :
  filter (λ c, c ∈ cl) l = [] → filter (λ c, c ∉ cl) l = l.
Proof.
  induction l as [|c l IH]; [done|]. rewrite !filter_cons.
  destruct (decide (c ∈ cl)) as [Hc|Hc]; [done|].
  intros H. rewrite decide_True by done. by rewrite IH.
Qed.

(** The second loop, run on the sockets of the registry that are closed:
    each is in the registry once, so every removal succeeds, and the open
    ones are what is left. *)
Lemma disconnect_each_closed (cl l : list WebSocket) :
  ∀ (pre : list WebSocket) (w : World),
    active_connections w = pre ++ l →
    NoDup (pre ++ l) →
    disconnect_each (filter (λ c, c ∈ cl) l) w =
      (Ok tt,
       registry_changed (pre ++ filter (λ c, c ∉ cl) l)
         (match filter (λ c, c ∈ cl) l with
          | [] => listeners (radio_state w)
          | _ :: _ => len (pre ++ filter (λ c, c ∉ cl) l)
          end) w).
Proof.
  induction l as [|c l IH]; intros pre w Hact Hnd.
  - rewrite !filter_nil. simpl. rewrite <- Hact. by rewrite registry_changed_same.
  - rewrite !filter_cons. destruct (decide (c ∈ cl)) as [Hc|Hc].
    + rewrite decide_False by (intros H; by apply H).
      simpl. run_M. rewrite disconnect_eq, Hact.
      assert ((c ∉ pre) ∧ NoDup (pre ++ l)) as [Hpre Hnd'].
      { apply NoDup_app in Hnd as (Hp & Hdisj & Hl).
        apply NoDup_cons in Hl as [Hcl Hl]. split.
        - intros Hin. apply (Hdisj c Hin). left.
        - apply NoDup_app. split_and!; [done| |done].
          intros x Hx Hx'. apply (Hdisj x Hx). by right. }
      rewrite list_remove_app_cons by done.
      rewrite (IH pre) by done. f_equal. simpl.
      destruct (filter (λ c0, c0 ∈ cl) l) eqn:Ef; [|done].
      by rewrite (filter_closed_nil _ _ Ef).
    + rewrite decide_True by done.
      rewrite (IH (pre ++ [c])).
      * by rewrite <- !app_assoc.
      * by rewrite <- app_assoc.
      * by rewrite <- app_assoc.
Qed.

(** The delivery loop of [broadcast] is best-effort: when the payload
    serialises and no socket is registered twice, every open socket of the
    registry gets the message, in order, and exactly the closed ones are
    unregistered afterwards. *)
Lemma broadcast_best_effort (data : payload) (message : text) (w : World) :
  json_dumps data = Ok message →
  NoDup (active_connections w) →
  broadcast data w =
    (Ok tt,
     registry_changed
       (filter (λ c, c ∉ closed w) (active_connections w))
       (match filter (λ c, c ∈ closed w) (active_connections w) with
        | [] => listeners (radio_state w)
        | _ :: _ => len (filter (λ c, c ∉ closed w) (active_connections w))
        end)
       (set_sent (sent w ++ ((λ c, (c, message)) <$>
                    filter (λ c, c ∉ closed w) (active_connections w))) w)).
Proof.
  intros Hj Hnd. unfold broadcast. run_M.
  destruct (active_connections w) as [|c0 cs] eqn:Ea.
  { rewrite !filter_nil. simpl. rewrite app_nil_r, set_sent_same.
    f_equal. destruct w as [[] ? ? ? ?]. simpl in *. by subst. }
  rewrite Hj. rewrite <- Ea in *. rewrite send_each_eq. simpl.
  by rewrite (disconnect_each_closed (closed w) (active_connections w) []).
Qed.

(** ** The fan-out scenario *)

(** With an idle radio the snapshot serialises and the fan-out is as
    specified: pausing reaches listeners 1 and 3 and drops listener 2. *)
Lemma pause_fan_out :
  active_connections three_listeners = [1%nat; 2%nat; 3%nat] ∧
  active_connections (step Pause three_listeners) = [1%nat; 3%nat] ∧
  listeners (radio_state (step Pause three_listeners)) = 2 ∧
  delivered Pause three_listeners =
    [(1%nat, Text (RadioStateData None false false 3 (PFloat 0%float)));
     (3%nat, Text (RadioStateData None false false 3 (PFloat 0%float)))].
Proof. vm_compute. done. Qed.

(** C9, on the code: with listeners 1, 2 and 3 registered and the socket of
    2 closed, [play_radio] starts the first song and then raises
    [TypeError] while serialising the snapshot: the state has changed, no
    listener has received anything and all three are still registered. *)
Theorem play_fan_out_raises :
  active_connections three_listeners = [1%nat; 2%nat; 3%nat] ∧
  closed three_listeners = [2%nat] ∧
  fst (play_radio 10 three_listeners) = Raise TypeError ∧
  is_playing (radio_state (snd (play_radio 10 three_listeners))) = true ∧
  current_song (radio_state (snd (play_radio 10 three_listeners))) = Some song_a ∧
  active_connections (snd (play_radio 10 three_listeners)) = [1%nat; 2%nat; 3%nat] ∧
  delivered (Play 10) three_listeners = [].
Proof. vm_compute. done. Qed.

(** ** What each handler sends *)

Lemma broadcast_radio_state_effect (w : World) :
  (∃ n, radio_state (snd (broadcast_radio_state w)) =
        with_listeners n (radio_state w)) ∧
  sent (snd (broadcast_radio_state w)) =
    sent w ++
    match current_song (radio_state w) with
    | None =>
        (λ c, (c, snapshot (radio_state w) (listeners (radio_state w)))) <$>
          filter (λ c, c ∉ closed w) (active_connections w)
    | Some _ => []
    end.
Proof.
  split; [apply broadcast_radio_state_radio|].
  unfold broadcast_radio_state. run_M.
  destruct (broadcast_frame (state_data (radio_state w)) w) as (l & n & ->).
  simpl. unfold snapshot, state_data. by destruct (current_song (radio_state w)).
Qed.

Lemma pause_radio_world (w : World) :
  snd (pause_radio w) =
  snd (broadcast_radio_state (set_radio_state (with_is_playing false) w)).
Proof.
  unfold pause_radio. run_M.
  by destruct (broadcast_radio_state _) as [[] w2].
Qed.

Lemma connect_world (websocket : WebSocket) (w : World) :
  snd (connect websocket w) =
  snd (broadcast_radio_state
         (set_radio_state
            (with_listeners (len (active_connections w ++ [websocket])))
            (set_active_connections (active_connections w ++ [websocket]) w))).
Proof. reflexivity. Qed.


Lemma play_radio_sent (now : datetime) (w : World) :
  sent (snd (play_radio now w)) = sent w.
Proof.
  unfold play_radio. run_M.
  destruct (load_active_playlist_eq w) as [l ->].
  destruct (start_playing_cases now (set_radio_state (with_playlist l) w))
    as [->|(first & ->)]; [done|].
  simpl. by destruct (active_connections w).
Qed.

Lemma next_song_sent (now : datetime) (w : World) :
  sent (snd (next_song now w)) = sent w.
Proof.
  unfold next_song. run_M.
  destruct (advance_cases now w) as [->|(song & ->)]; [done|].
  by destruct (active_connections w).
Qed.



Lemma add_song_to_playlist_sent (playlist_id song_id : string) (w : World) :
  sent (snd (add_song_to_playlist playlist_id song_id w)) = sent w.
Proof.
  unfold add_song_to_playlist. run_M.
  destruct (update_one_addToSet _ _ _) as [l r]. simpl.
  by destruct (decide _).
Qed.

Lemma upload_song_sent (file : UploadFile) (env : UploadEnv) (w : World) :
  sent (snd (upload_song file env w)) = sent w.
Proof.
  unfold upload_song, upload_song_body. run_M.
  destruct (content_type file) as [ct|]; simpl; [|done].
  destruct (negb _); simpl; [done|].
  destruct (write_error env); simpl; [done|].
  by destruct (extract_metadata _ _) as [[? ?] ?].
Qed.

(** * Further properties of the code *)

(** ** The worlds the handlers leave, exactly *)

Lemma set_playlist_same (w : World) :
  set_radio_state (with_playlist (playlist (radio_state w))) w = w.
Proof. by destruct w as [[] ? ? ? ?]. Qed.

Lemma load_active_playlist_world (w : World) :
  load_active_playlist w =
    (Ok tt,
     match playlist (radio_state w), find_one_active (db w) with
     | [], Some active_playlist =>
         set_radio_state
           (with_playlist (find_songs_in (Playlist.songs active_playlist) (db w))) w
     | _, _ => w
     end).
Proof.
  unfold load_active_playlist. run_M.
  destruct (playlist (radio_state w)); [|done].
  by destruct (find_one_active (db w)).
Qed.

Lemma start_playing_world (now : datetime) (w : World) :
  start_playing now w =
    match playlist (radio_state w), is_playing (radio_state w) with
    | first :: _, false =>
        (match active_connections w with [] => Ok tt | _ :: _ => Raise TypeError end,
         set_radio_state (started first now) w)
    | _, _ => (Ok tt, w)
    end.
Proof.
  unfold start_playing. run_M.
  destruct (playlist (radio_state w)) as [|first l]; [done|].
  destruct (is_playing (radio_state w)); [done|].
  unfold started.
  destruct (current_song (radio_state w)) as [s|] eqn:Ec; simpl.
  - rewrite (broadcast_radio_state_song _ s) by done. simpl.
    f_equal. destruct w as [[] ? ? ? ?]. simpl in *. by subst.
  - rewrite (broadcast_radio_state_song _ first) by done. simpl.
    f_equal. destruct w as [[] ? ? ? ?]. simpl in *. by subst.
Qed.

Lemma advance_world (now : datetime) (w : World) :
  advance now w = (Ok tt, w) ∨
  ∃ song,
    song ∈ playlist (radio_state w) ∧
    advance now w =
      (match active_connections w with [] => Ok tt | _ :: _ => Raise TypeError end,
       set_radio_state (moved_to song now) w).
Proof.
  unfold advance. run_M.
  destruct (playlist (radio_state w)) as [|s0 l] eqn:El; [by left|].
  destruct (current_song (radio_state w)) as [cur|] eqn:Ec; [|by left].
  destruct (negb _ && _) eqn:G; [|by left].
  destruct (_ !! _) as [song|] eqn:Es.
  - right. exists song. split; [by eapply list_elem_of_lookup_2|].
    by rewrite (broadcast_radio_state_song _ song) by done.
  - exfalso. apply andb_true_iff in G as [G1 G2].
    apply negb_true_iff, Z.eqb_neq in G1. apply Z.ltb_lt in G2.
    pose proof (index_of_id_lower (Song.id cur) (s0 :: l)) as Hlow.
    apply lookup_ge_None in Es. unfold len in G2. lia.
Qed.

(** A chat payload never serialises: broadcasting one raises as soon as
    somebody is registered and does nothing at all otherwise. *)
Lemma broadcast_chat (msg : ChatMessage.t) (w : World) :
  broadcast (ChatData msg) w =
    (match active_connections w with [] => Ok tt | _ :: _ => Raise TypeError end, w).
Proof. unfold broadcast. run_M. by destruct (active_connections w). Qed.

(** The second loop of [broadcast] either changes nothing or leaves a
    registry with the listener count set to its size. *)
Lemma disconnect_each_counted (disconnected : list WebSocket) (w : World) :
  ∃ l n,
    snd (disconnect_each disconnected w) = registry_changed l n w ∧
    ((l = active_connections w ∧ n = listeners (radio_state w)) ∨ n = len l).
Proof.
  revert w. induction disconnected as [|c ds IH]; intros w; simpl.
  - exists (active_connections w), (listeners (radio_state w)).
    split; [by rewrite registry_changed_same | by left].
  - run_M. rewrite disconnect_eq.
    destruct (list_remove c (active_connections w)) as [l|]; simpl.
    + destruct (IH (registry_changed l (len l) w)) as (l' & n' & E & H).
      exists l', n'. split.
      * unfold registry_changed in *. by rewrite E.
      * right. simpl in H. by destruct H as [[-> ->]|H].
    + exists (active_connections w), (listeners (radio_state w)).
      split; [by rewrite registry_changed_same | by left].
Qed.

Lemma broadcast_counted (data : payload) (w : World) :
  ∃ l n s,
    snd (broadcast data w) = registry_changed l n (set_sent s w) ∧
    ((l = active_connections w ∧ n = listeners (radio_state w)) ∨ n = len l).
Proof.
  unfold broadcast. run_M.
  assert (∃ l n s, w = registry_changed l n (set_sent s w) ∧
            ((l = active_connections w ∧ n = listeners (radio_state w)) ∨ n = len l))
    as Same.
  { exists (active_connections w), (listeners (radio_state w)), (sent w).
    split; [|by left]. by rewrite set_sent_same, registry_changed_same. }
  destruct (active_connections w) as [|c0 cs] eqn:Ea; [done|].
  destruct (json_dumps data) as [message|e]; [|done].
  rewrite <- Ea. rewrite send_each_eq. simpl.
  match goal with |- context [disconnect_each ?d ?w1] =>
    destruct (disconnect_each_counted d w1) as (l & n & E & H);
    destruct (disconnect_each d w1) as [r w2] end.
  simpl in *. subst w2. exists l, n. eexists. split; [by destruct r|done].
Qed.

(** ** Every handler is a sequence of changes *)

Lemma set_db_same (w : World) : set_db (db w) w = w.
Proof. by destruct w. Qed.

Lemma changes_broadcast (data : payload) (w : World) :
  rtc change w (snd (broadcast data w)).
Proof.
  destruct (broadcast_counted data w) as (l & n & s & -> & H).
  by apply rtc_once, change_registry.
Qed.

Lemma changes_disconnect (websocket : WebSocket) (w : World) :
  rtc change w (snd (disconnect websocket w)).
Proof.
  rewrite disconnect_eq. destruct (list_remove _ _) as [l|]; simpl; [|done].
  apply rtc_once. rewrite <- (set_sent_same w) at 2.
  apply change_registry. by right.
Qed.

Lemma changes_connect (websocket : WebSocket) (w : World) :
  rtc change w (snd (connect websocket w)).
Proof.
  rewrite connect_world. eapply rtc_l; [apply (change_register w websocket)|].
  apply changes_broadcast.
Qed.

Lemma changes_pause_radio (w : World) : rtc change w (snd (pause_radio w)).
Proof.
  rewrite pause_radio_world. eapply rtc_l; [apply change_pause|].
  apply changes_broadcast.
Qed.

Lemma play_radio_world (now : datetime) (w : World) :
  snd (play_radio now w) = snd (start_playing now (snd (load_active_playlist w))).
Proof.
  unfold play_radio. run_M. rewrite load_active_playlist_world. simpl.
  by destruct (start_playing now _) as [[] w2].
Qed.

Lemma changes_play_radio (now : datetime) (w : World) :
  rtc change w (snd (play_radio now w)).
Proof.
  rewrite play_radio_world.
  apply (rtc_trans _ (snd (load_active_playlist w)) _).
  - rewrite load_active_playlist_world. simpl.
    destruct (playlist (radio_state w)) eqn:El; [|done].
    destruct (find_one_active (db w)) as [p|] eqn:Ef; [|done].
    by apply rtc_once, change_load.
  - generalize (snd (load_active_playlist w)). intros w1.
    rewrite start_playing_world.
    destruct (playlist (radio_state w1)) as [|first rest] eqn:El; [done|].
    destruct (is_playing (radio_state w1)) eqn:Ep; [done|].
    simpl. by eapply rtc_once, change_start.
Qed.

Lemma changes_next_song (now : datetime) (w : World) :
  rtc change w (snd (next_song now w)).
Proof.
  unfold next_song. run_M.
  destruct (advance_world now w) as [->|(song & Hin & ->)]; [done|].
  assert (∀ r : result unit,
            (let (r0, w') := (r, set_radio_state (moved_to song now) w) in
             match r0 with
             | Ok _ => (Ok (MessageSong "Siguiente canción"
                              (current_song (radio_state w'))), w')
             | Raise e => (Raise e, w')
             end).2 = set_radio_state (moved_to song now) w) as E
    by (by intros []).
  rewrite E. by apply rtc_once, change_move.
Qed.

Lemma changes_on_text (data : inbound) (uuid : string) (now : datetime) (w : World) :
  rtc change w (snd (on_text data uuid now w)).
Proof.
  unfold on_text. run_M.
  destruct data as [raw|[ | | | | | |items]]; simpl; try done.
  destruct (py_eq_str _ "position_update"); [by apply rtc_once, change_position|].
  destruct (py_eq_str _ "chat"); [|done].
  destruct (str_field _) as [username|e]; simpl; [|by destruct e].
  destruct (str_field _) as [body|e]; simpl; [|by destruct e].
  rewrite broadcast_chat. simpl.
  match goal with |- rtc change w ?x =>
    assert (x = set_db (MkDb (db_songs (db w)) (db_playlists (db w))
                          (db_chat_messages (db w) ++
                             [ChatMessage.Build uuid username body now])) w) as ->
      by (by destruct (active_connections w)) end.
  by apply rtc_once, change_store.
Qed.

Lemma changes_websocket_iteration (websocket : WebSocket) (ev : ws_event)
    (uuid : string) (now : datetime) (w : World) :
  rtc change w (snd (websocket_iteration websocket ev uuid now w)).
Proof.
  unfold websocket_iteration. destruct ev as [data|]; run_M.
  - pose proof (changes_on_text data uuid now w) as H.
    destruct (on_text data uuid now w) as [[[]|e] w1]; simpl in *; [done|].
    destruct e; try done.
    pose proof (changes_disconnect websocket w1) as Hd.
    destruct (disconnect websocket w1) as [[] w2]; simpl in *;
      by apply (rtc_trans _ w1 _).
  - pose proof (changes_disconnect websocket w) as Hd.
    by destruct (disconnect websocket w) as [[] w2].
Qed.

Lemma update_one_addToSet_inactive (playlist_id song_id : string)
    (l : list Playlist.t) :
  Forall (λ p, Playlist.is_active p = false) l →
  Forall (λ p, Playlist.is_active p = false)
         (fst (update_one_addToSet playlist_id song_id l)).
Proof.
  induction 1 as [|p l Hp Hl IH]; simpl; [done|].
  destruct (decide (Playlist.id p = playlist_id)).
  - destruct (decide (song_id ∈ Playlist.songs p)); simpl; by constructor.
  - destruct (update_one_addToSet playlist_id song_id l) as [l' r]. simpl in *.
    by constructor.
Qed.

Lemma update_one_addToSet_NoDup (playlist_id song_id : string)
    (l : list Playlist.t) :
  Forall (λ p, NoDup (Playlist.songs p)) l →
  Forall (λ p, NoDup (Playlist.songs p))
         (fst (update_one_addToSet playlist_id song_id l)).
Proof.
  induction 1 as [|p l Hp Hl IH]; simpl; [done|].
  destruct (decide (Playlist.id p = playlist_id)).
  - destruct (decide (song_id ∈ Playlist.songs p)); simpl; constructor; try done.
    simpl. apply NoDup_app. split_and!; [done| |apply NoDup_singleton].
    intros x Hx Hx'. apply list_elem_of_singleton in Hx'. by subst.
  - destruct (update_one_addToSet playlist_id song_id l) as [l' r]. simpl in *.
    by constructor.
Qed.

Lemma changes_add_song_to_playlist (playlist_id song_id : string) (w : World) :
  rtc change w (snd (add_song_to_playlist playlist_id song_id w)).
Proof.
  unfold add_song_to_playlist. run_M.
  pose proof (update_one_addToSet_inactive playlist_id song_id
                (db_playlists (db w))) as H.
  pose proof (update_one_addToSet_NoDup playlist_id song_id
                (db_playlists (db w))) as H'.
  destruct (update_one_addToSet _ _ _) as [l r]. simpl in *.
  match goal with |- rtc change w ?x =>
    assert (x = set_db (MkDb (db_songs (db w)) l (db_chat_messages (db w))) w) as ->
      by (by destruct (decide _)) end.
  by apply rtc_once, change_store.
Qed.

Lemma changes_upload_song (file : UploadFile) (env : UploadEnv) (w : World) :
  rtc change w (snd (upload_song file env w)).
Proof.
  unfold upload_song, upload_song_body. run_M.
  destruct (content_type file) as [ct|]; simpl; [|done].
  destruct (negb _); simpl; [done|].
  destruct (write_error env); simpl; [done|].
  destruct (extract_metadata _ _) as [[? ?] ?]. simpl.
  by apply rtc_once, change_store.
Qed.

Lemma changes_create_playlist (name uuid : string) (now : datetime) (w : World) :
  rtc change w (snd (create_playlist name uuid now w)).
Proof.
  unfold create_playlist. run_M. apply rtc_once, change_store.
  split; [unfold no_active_playlist|unfold duplicate_free]; simpl; intros H;
    (apply Forall_app; split; [done|]); constructor; try done.
  simpl. apply NoDup_nil_2.
Qed.

Lemma changes_delete_song (song_id : string) (removable : string → bool) (w : World) :
  rtc change w (snd (delete_song song_id removable w)).
Proof.
  unfold delete_song. run_M.
  destruct (delete_one_song _ _) as [l n]. simpl.
  match goal with |- rtc change w ?x =>
    assert (x = set_db (MkDb l (db_playlists (db w)) (db_chat_messages (db w))) w) as ->
      by (by destruct (decide _)) end.
  by apply rtc_once, change_store.
Qed.

Lemma changes_send_chat_message (username message uuid : string) (now : datetime)
    (w : World) :
  rtc change w (snd (send_chat_message username message uuid now w)).
Proof.
  unfold send_chat_message. run_M. rewrite broadcast_chat. simpl.
  match goal with |- rtc change w ?x =>
    assert (x = set_db (MkDb (db_songs (db w)) (db_playlists (db w))
                          (db_chat_messages (db w) ++
                             [ChatMessage.Build uuid username message now])) w) as ->
      by (by destruct (active_connections w)) end.
  by apply rtc_once, change_store.
Qed.

(** Whatever comes in through the API, the world moves by the changes above
    and by nothing else. *)
Lemma changes_step_call (c : call) (w : World) :
  through_api c → rtc change w (step_call c w).
Proof.
  destruct c as [[now| |now|ws|ws|ws ev uuid now|pid sid|file env|cl d]
                | name uuid now | sid removable | username message uuid now | | | ];
    simpl; intros Hapi; try done.
  - apply changes_play_radio.
  - apply changes_pause_radio.
  - apply changes_next_song.
  - apply changes_connect.
  - apply changes_disconnect.
  - apply changes_websocket_iteration.
  - apply changes_add_song_to_playlist.
  - apply changes_upload_song.
  - apply changes_create_playlist.
  - apply changes_delete_song.
  - apply changes_send_chat_message.
Qed.

(** ** Invariants of the radio state and the registry *)

Lemma sound_change (w w' : World) : change w w' → sound w → sound w'.
Proof.
  unfold sound, listeners_counted, current_on_playlist, playing_has_start.
  intros Hc (Hl & Hs & Hp).
  destruct Hc as [l n s H|ws| |p El Ef|first rest now El Ep|song now Hin|position|d Hd];
    simpl; try done.
  - split_and!; [|done|done]. by destruct H as [[-> ->]|H].
  - rewrite El in Hs. split_and!; [done| |done].
    intros s Hcur. by apply Hs, elem_of_nil in Hcur.
  - rewrite El in *. split_and!; [done| |done].
    intros s [= <-]. destruct (current_song (radio_state w)) as [cur|].
    + by apply Hs.
    + left.
  - split_and!; [done| |done]. by intros s [= <-].
Qed.

Lemma sound_changes (w w' : World) : rtc change w w' → sound w → sound w'.
Proof. induction 1; eauto using sound_change. Qed.

Lemma sound_step_call (c : call) (w : World) : sound w → sound (step_call c w).
Proof.
  intros Hw.
  destruct c as [[now| |now|ws|ws|ws ev uuid now|pid sid|file env|cl d]
                | name uuid now | sid removable | username message uuid now | | | ];
    try (by apply (sound_changes w); [apply changes_step_call|]).
  all: done.
Qed.

Lemma sound_session (calls : list call) (w : World) :
  sound w → Forall sound (session calls w).
Proof.
  revert w. induction calls as [|c calls IH]; intros w Hw; simpl; constructor.
  - by apply sound_step_call.
  - by apply IH, sound_step_call.
Qed.

Lemma sound_initial (d : Db) (c : list WebSocket) : sound (initial d c).
Proof.
  unfold sound, listeners_counted, current_on_playlist, playing_has_start.
  simpl. split_and!; done.
Qed.

(** X1: in every session from the initial state, after each call
    [get_radio_status] reports as [listeners] the number of sockets in the
    registry (and has no effect itself). *)
Theorem status_listeners_is_registry_size (calls : list call) (d : Db)
    (c : list WebSocket) :
  Forall (λ w, ∃ st, get_radio_status w = (Ok st, w) ∧
                     status_listeners st = len (active_connections w))
         (session calls (initial d c)).
Proof.
  eapply Forall_impl; [apply sound_session, sound_initial|].
  intros w (Hl & _ & _). eexists. split; [reflexivity|]. exact Hl.
Qed.


(** X3: in every session from the initial state, after each call a radio
    that is playing has its [start_time] set. *)
Theorem playing_has_start_always (calls : list call) (d : Db)
    (c : list WebSocket) :
  Forall playing_has_start (session calls (initial d c)).
Proof.
  eapply Forall_impl; [apply sound_session, sound_initial|].
  by intros w (_ & _ & H).
Qed.

(** ** The playlist is loaded once *)






(** ** Nothing in the API activates a playlist *)

Lemma find_one_active_None (d : Db) :
  no_active_playlist d → find_one_active d = None.
Proof.
  unfold no_active_playlist, find_one_active.
  induction 1 as [|p l Hp _ IH]; [done|].
  rewrite filter_cons. rewrite decide_False; [done|]. by rewrite Hp.
Qed.

Lemma idle_change (w w' : World) :
  change w w' →
  idle w ∧ no_active_playlist (db w) →
  idle w' ∧ no_active_playlist (db w').
Proof.
  unfold idle. intros Hc ((Hl & Hs & Hp) & Hd).
  destruct Hc as [l n s H|ws| |p El Ef|first rest now El Ep|song now Hin|position|d' Hd'];
    simpl; try done.
  - by rewrite (find_one_active_None _ Hd) in Ef.
  - by rewrite Hl in El.
  - rewrite Hl in Hin. by apply elem_of_nil in Hin.
  - split; [done|]. by apply Hd'.
Qed.

Lemma idle_changes (w w' : World) :
  rtc change w w' →
  idle w ∧ no_active_playlist (db w) →
  idle w' ∧ no_active_playlist (db w').
Proof. induction 1; eauto using idle_change. Qed.

(** X5: [create_playlist] makes playlists that are not active and no
    handler ever sets the flag; so when the store starts without an active
    playlist and changes only through the API, the radio never starts:
    after every call it has no playlist, no current song and is not
    playing, whatever is uploaded, created, added or played. *)
Theorem never_plays_without_active_playlist (calls : list call) (d : Db)
    (c : list WebSocket) :
  no_active_playlist d →
  Forall through_api calls →
  Forall (λ w, idle w ∧ no_active_playlist (db w)) (session calls (initial d c)).
Proof.
  intros Hd Hcalls.
  assert (idle (initial d c) ∧ no_active_playlist (db (initial d c))) as Hw
    by (by unfold idle).
  revert Hw. generalize (initial d c).
  induction Hcalls as [|call calls Hc _ IH]; intros w Hw; simpl; constructor.
  - by apply (idle_changes w); [apply changes_step_call|].
  - apply IH. by apply (idle_changes w); [apply changes_step_call|].
Qed.

Lemma never_plays_without_active_playlist_witness :
  Forall (λ w, idle w ∧ no_active_playlist (db w))
         (session [CreatePlaylist "Tarde" "p" 1; Core (AddSong "p" "a");
                   Core (Register 1%nat); Core (Play 5); Core (Next 6)]
                  (initial (MkDb [song_a; song_b] [] []) [])).
Proof.
  apply (never_plays_without_active_playlist
           [CreatePlaylist "Tarde" "p" 1; Core (AddSong "p" "a");
            Core (Register 1%nat); Core (Play 5); Core (Next 6)]
           (MkDb [song_a; song_b] [] []) []).
  - constructor.
  - repeat constructor.
Defined.

(** ** Playing *)

Lemma play_radio_result (now : datetime) (w : World) :
  play_radio now w =
    (match fst (start_playing now (snd (load_active_playlist w))) with
     | Ok _ => Ok (MessageSong "Radio iniciada"
                     (current_song (radio_state (snd (play_radio now w)))))
     | Raise e => Raise e
     end,
     snd (play_radio now w)).
Proof.
  unfold play_radio. run_M. rewrite load_active_playlist_world. simpl.
  by destruct (start_playing now _) as [[] w2].
Qed.

Lemma load_active_playlist_twice (w : World) :
  snd (load_active_playlist (snd (load_active_playlist w))) =
  snd (load_active_playlist w).
Proof.
  rewrite !load_active_playlist_world. simpl.
  destruct (playlist (radio_state w)) as [|s l] eqn:El.
  - destruct (find_one_active (db w)) as [p|] eqn:Ef; simpl.
    + rewrite Ef. destruct (find_songs_in _ _) eqn:E; [|done].
      by destruct w as [[] ? ? ? ?].
    + by rewrite El, Ef.
  - by rewrite El.
Qed.

(** X6: [play_radio] is idempotent.  A second call right after a first one,
    at whatever time, returns normally with the current song and changes
    nothing: the song, [start_time] and everything else stay as the first
    call left them, also when the first call raised. *)
Theorem play_radio_twice (now1 now2 : datetime) (w : World) :
  play_radio now2 (snd (play_radio now1 w)) =
    (Ok (MessageSong "Radio iniciada"
           (current_song (radio_state (snd (play_radio now1 w))))),
     snd (play_radio now1 w)).
Proof.
  rewrite (play_radio_result now2). rewrite (play_radio_world now2).
  rewrite (play_radio_world now1).
  pose proof (load_active_playlist_twice w) as Hload.
  remember (snd (load_active_playlist w)) as w1 eqn:E1. clear E1 w.
  assert (∀ w2, snd (start_playing now1 w1) = w2 →
            start_playing now2 (snd (load_active_playlist w2)) = (Ok tt, w2)) as H.
  { intros w2 <-. rewrite (start_playing_world now1).
    destruct (playlist (radio_state w1)) as [|first rest] eqn:El.
    - simpl. rewrite Hload. rewrite start_playing_world. by rewrite El.
    - destruct (is_playing (radio_state w1)) eqn:Ep; simpl.
      + rewrite Hload. rewrite start_playing_world. by rewrite El, Ep.
      + rewrite load_active_playlist_world. simpl. rewrite El.
        rewrite start_playing_world. simpl. by rewrite El. }
  by rewrite (H _ eq_refl).
Qed.

(** X7: pausing and playing again resumes the same song.  With a song
    current, after [pause_radio] and then [play_radio] the current song and
    the position are the ones from before; and when the radio has a
    playlist it is playing again, with [start_time] at the time of the
    call. *)
Theorem pause_then_play_resumes (now : datetime) (w : World) (s : Song.t) :
  current_song (radio_state w) = Some s →
  current_song (radio_state (step (Play now) (step Pause w))) = Some s ∧
  current_position (radio_state (step (Play now) (step Pause w)))
    = current_position (radio_state w) ∧
  (playlist (radio_state w) ≠ [] →
   is_playing (radio_state (step (Play now) (step Pause w))) = true ∧
   start_time (radio_state (step (Play now) (step Pause w))) = Some now).
Proof.
  intros Hs. simpl. destruct (pause_radio_radio w) as [n E].
  remember (snd (pause_radio w)) as wp eqn:Ewp. clear Ewp.
  rewrite play_radio_world, load_active_playlist_world, start_playing_world.
  assert (playlist (radio_state wp) = playlist (radio_state w)) as Hpl by by rewrite E.
  assert (current_song (radio_state wp) = Some s) as Hcs by by rewrite E.
  assert (current_position (radio_state wp) = current_position (radio_state w))
    as Hpos by by rewrite E.
  assert (is_playing (radio_state wp) = false) as Hip by by rewrite E.
  destruct (playlist (radio_state wp)) as [|first rest] eqn:El.
  - destruct (find_one_active (db wp)) as [p|]; simpl.
    + destruct (find_songs_in _ _) as [|f r]; simpl; rewrite ?Hip; simpl;
        rewrite ?Hcs; split_and!; try done; by rewrite <- Hpl.
    + rewrite El. simpl. split_and!; done.
  - simpl. rewrite El, Hip. simpl. by rewrite Hcs.
Qed.

Lemma pause_then_play_resumes_witness :
  current_song (radio_state
    (step (Play 30) (step Pause (run [Play 10; Next 20] (initial demo_db_full [])))))
    = Some song_b ∧
  current_position (radio_state
    (step (Play 30) (step Pause (run [Play 10; Next 20] (initial demo_db_full [])))))
    = current_position (radio_state (run [Play 10; Next 20] (initial demo_db_full []))) ∧
  (playlist (radio_state (run [Play 10; Next 20] (initial demo_db_full []))) ≠ [] →
   is_playing (radio_state
     (step (Play 30) (step Pause (run [Play 10; Next 20] (initial demo_db_full [])))))
     = true ∧
   start_time (radio_state
     (step (Play 30) (step Pause (run [Play 10; Next 20] (initial demo_db_full [])))))
     = Some 30).
Proof.
  apply (pause_then_play_resumes 30
           (run [Play 10; Next 20] (initial demo_db_full [])) song_b).
  reflexivity.
Defined.



(** X9: starting an idle radio that has, or can load, a non-empty playlist
    makes the first entry current, sets [is_playing] and stamps
    [start_time]; the call returns that song when nobody is connected and
    raises [TypeError], with the state changed all the same, as soon as one
    socket is registered. *)
Theorem play_radio_starts_first (now : datetime) (w : World)
    (first : Song.t) (rest : list Song.t) :
  current_song (radio_state w) = None →
  is_playing (radio_state w) = false →
  playlist (radio_state w) = first :: rest ∨
  (playlist (radio_state w) = [] ∧
   ∃ active_playlist,
     find_one_active (db w) = Some active_playlist ∧
     find_songs_in (Playlist.songs active_playlist) (db w) = first :: rest) →
  current_song (radio_state (snd (play_radio now w))) = Some first ∧
  is_playing (radio_state (snd (play_radio now w))) = true ∧
  start_time (radio_state (snd (play_radio now w))) = Some now ∧
  playlist (radio_state (snd (play_radio now w))) = first :: rest ∧
  fst (play_radio now w) =
    match active_connections w with
    | [] => Ok (MessageSong "Radio iniciada" (Some first))
    | _ :: _ => Raise TypeError
    end.
Proof.
  intros Hcs Hip Hpl. rewrite play_radio_result.
  rewrite play_radio_world, load_active_playlist_world, start_playing_world.
  destruct Hpl as [El|(El & p & Ef & Es)].
  - rewrite El. simpl. rewrite El, Hip. simpl. rewrite Hcs.
    by destruct (active_connections w).
  - rewrite El, Ef. simpl. rewrite Es, Hip. simpl. rewrite Hcs.
    by destruct (active_connections w).
Qed.

Lemma play_radio_starts_first_witness :
  current_song (radio_state (snd (play_radio 10 three_listeners))) = Some song_a ∧
  is_playing (radio_state (snd (play_radio 10 three_listeners))) = true ∧
  start_time (radio_state (snd (play_radio 10 three_listeners))) = Some 10 ∧
  playlist (radio_state (snd (play_radio 10 three_listeners))) = [song_a; song_b] ∧
  fst (play_radio 10 three_listeners) =
    match active_connections three_listeners with
    | [] => Ok (MessageSong "Radio iniciada" (Some song_a))
    | _ :: _ => Raise TypeError
    end.
Proof.
  apply (play_radio_starts_first 10 three_listeners song_a [song_b]);
    [reflexivity | reflexivity |].
  right. split; [reflexivity|].
  exists (Playlist.Build "p" "Tarde" ["a"; "b"] 50 true). split; reflexivity.
Defined.

(** ** Delivery *)

(** With nobody else scheduled, [broadcast_live] is [broadcast]. *)
Lemma broadcast_live_alone (data : payload) (w : World) :
  broadcast_live [] data w = broadcast data w.
Proof.
  unfold broadcast_live, broadcast. run_M.
  destruct (active_connections w) eqn:Ea; [done|].
  destruct (json_dumps data); [|done]. run_M. by rewrite Ea.
Qed.

(** The first loop among coroutines that leave the registry alone: it
    still visits every socket once. *)
Lemma send_each_live_quiet (message : text) (others : list (M unit)) :
  Forall registry_quiet others →
  ∀ (i : nat) (d : list WebSocket) (w : World),
    ∃ w' : World,
      send_each_live others i message d w =
        (Ok (d ++ filter (λ c, c ∈ closed w) (drop i (active_connections w))), w') ∧
      active_connections w' = active_connections w ∧
      closed w' = closed w ∧
      sent w' = sent w ++ ((λ c, (c, message)) <$>
                  filter (λ c, c ∉ closed w) (drop i (active_connections w))) ∧
      listeners (radio_state w') = listeners (radio_state w).
Proof.
  induction 1 as [|other rest Hq _ IH]; intros i d w.
  - simpl. run_M. rewrite send_each_eq. eexists. split; [reflexivity|]. done.
  - simpl. run_M.
    destruct (active_connections w !! i) as [c|] eqn:Ei.
    + rewrite (drop_S _ _ _ Ei), !filter_cons.
      unfold send_text, elsewhere. run_M.
      destruct (decide (c ∈ closed w)) as [Hc|Hc].
      * rewrite decide_False by (intros H; by apply H). simpl.
        destruct (Hq w) as (Ha & Hcl & Hs & Hl).
        destruct (IH (S i) (d ++ [c]) (snd (other w)))
          as (w' & E & Ha' & Hcl' & Hs' & Hl').
        exists w'. rewrite E, Ha, Hcl, <- app_assoc. split; [done|].
        rewrite Ha', Hcl', Hs', Hl', Ha, Hcl, Hs, Hl. done.
      * rewrite decide_True by done. simpl.
        set (w1 := set_sent (sent w ++ [(c, message)]) w).
        destruct (Hq w1) as (Ha & Hcl & Hs & Hl).
        destruct (IH (S i) d (snd (other w1)))
          as (w' & E & Ha' & Hcl' & Hs' & Hl').
        exists w'. rewrite E, Ha, Hcl. split; [done|].
        rewrite Ha', Hcl', Hs', Hl', Ha, Hcl, Hs, Hl. simpl.
        by rewrite <- app_assoc.
    + rewrite (drop_ge _ i) by (by apply lookup_ge_None).
      rewrite filter_nil, !app_nil_r. by exists w.
Qed.

(** X10: [broadcast] is best-effort as long as the coroutines that run
    during its awaits leave the registry alone.  When the payload
    serialises, no socket is registered twice and the others leave the
    registry, the listener count, the sockets and the sent messages as they
    are, the call returns normally; what it sent is the message, once to
    each open socket of the registry in registry order; the registry
    afterwards holds the open sockets and no others; and the listener count
    is the new size of the registry whenever a socket was dropped and
    untouched otherwise. *)
Theorem broadcast_delivers_and_prunes (others : list (M unit)) (data : payload)
    (message : text) (w : World) :
  json_dumps data = Ok message →
  NoDup (active_connections w) →
  Forall registry_quiet others →
  fst (broadcast_live others data w) = Ok tt ∧
  sent (snd (broadcast_live others data w)) =
    sent w ++ ((λ c, (c, message)) <$>
                 filter (λ c, c ∉ closed w) (active_connections w)) ∧
  active_connections (snd (broadcast_live others data w)) =
    filter (λ c, c ∉ closed w) (active_connections w) ∧
  listeners (radio_state (snd (broadcast_live others data w))) =
    match filter (λ c, c ∈ closed w) (active_connections w) with
    | [] => listeners (radio_state w)
    | _ :: _ => len (active_connections (snd (broadcast_live others data w)))
    end.
Proof.
  intros Hj Hnd Hq. unfold broadcast_live. run_M.
  destruct (active_connections w) as [|c0 cs] eqn:Ea.
  { rewrite !filter_nil, app_nil_r. done. }
  rewrite Hj. simpl. rewrite <- Ea in *.
  destruct (send_each_live_quiet message others Hq 0 [] w)
    as (w' & E & Ha & Hcl & Hs & Hl).
  rewrite E. simpl. rewrite drop_0.
  rewrite (disconnect_each_closed (closed w) (active_connections w) [] w')
    by done.
  simpl. rewrite Hs, Hl. done.
Qed.

Lemma broadcast_delivers_and_prunes_witness :
  fst (broadcast_live [position_report (PInt 5)]
         (state_data (radio_state three_listeners)) three_listeners) = Ok tt ∧
  sent (snd (broadcast_live [position_report (PInt 5)]
               (state_data (radio_state three_listeners)) three_listeners)) =
    sent three_listeners ++
      ((λ c, (c, Text (state_data (radio_state three_listeners)))) <$>
         filter (λ c, c ∉ closed three_listeners) (active_connections three_listeners)) ∧
  active_connections
    (snd (broadcast_live [position_report (PInt 5)]
            (state_data (radio_state three_listeners)) three_listeners)) =
    filter (λ c, c ∉ closed three_listeners) (active_connections three_listeners) ∧
  listeners (radio_state
    (snd (broadcast_live [position_report (PInt 5)]
            (state_data (radio_state three_listeners)) three_listeners))) =
    match filter (λ c, c ∈ closed three_listeners)
                 (active_connections three_listeners) with
    | [] => listeners (radio_state three_listeners)
    | _ :: _ =>
        len (active_connections
               (snd (broadcast_live [position_report (PInt 5)]
                       (state_data (radio_state three_listeners))
                       three_listeners)))
    end.
Proof.
  apply (broadcast_delivers_and_prunes [position_report (PInt 5)]
           (state_data (radio_state three_listeners))
           (Text (state_data (radio_state three_listeners))) three_listeners).
  - reflexivity.
  - apply (bool_decide_unpack _). vm_compute. exact I.
  - constructor; [|constructor].
    intros w. split_and!; reflexivity.
Defined.

(** X27: a disconnect that runs during the first await of [broadcast]
    breaks it.  With the first registered socket closed and its coroutine
    unregistering it while the broadcast is suspended in the send to it,
    the iterator skips the second socket, which gets nothing and stays
    registered, and the second loop raises [ValueError] when it unregisters
    the first socket again. *)
Theorem broadcast_skips_after_disconnect (a b : WebSocket)
    (rest : list WebSocket) (data : payload) (message : text) (uuid : string)
    (now : datetime) (w : World) :
  json_dumps data = Ok message →
  active_connections w = a :: b :: rest →
  NoDup (a :: b :: rest) →
  a ∈ closed w →
  fst (broadcast_live [peer_gone a uuid now] data w) = Raise ValueError ∧
  sent (snd (broadcast_live [peer_gone a uuid now] data w)) =
    sent w ++ ((λ c, (c, message)) <$> filter (λ c, c ∉ closed w) rest) ∧
  (∀ m, (b, m) ∉ (λ c, (c, message)) <$> filter (λ c, c ∉ closed w) rest) ∧
  b ∈ active_connections (snd (broadcast_live [peer_gone a uuid now] data w)).
Proof.
  intros Hj Ha Hnd Hcl.
  apply NoDup_cons in Hnd as [Hab Hnd].
  apply NoDup_cons in Hnd as [Hb Hnd].
  assert (broadcast_live [peer_gone a uuid now] data w =
            (Raise ValueError,
             set_sent (sent w ++ ((λ c, (c, message)) <$>
                                    filter (λ c, c ∉ closed w) rest))
               (registry_changed (b :: rest) (len (b :: rest)) w))) as E.
  { unfold broadcast_live, peer_gone. run_M. rewrite Ha, Hj. simpl.
    run_M. rewrite Ha. simpl. unfold send_text, elsewhere. run_M.
    rewrite decide_True by done. simpl.
    unfold websocket_iteration. run_M. rewrite disconnect_eq, Ha. simpl.
    rewrite decide_True by done. simpl.
    rewrite send_each_eq. simpl. run_M. rewrite disconnect_eq. simpl.
    destruct (decide (b = a)) as [->|_]; [exfalso; apply Hab; left|].
    rewrite (proj2 (list_remove_None a rest))
      by (intros H; apply Hab; by right).
    done. }
  rewrite E. simpl. split_and!; [done|done| |left].
  intros m Hin. apply list_elem_of_fmap in Hin as (c & Hc & Hin).
  injection Hc as <- _. apply list_elem_of_filter in Hin as [_ Hin]. done.
Qed.

Lemma broadcast_skips_after_disconnect_witness :
  fst (broadcast_live [peer_gone 1%nat "" 0] (state_data (radio_state first_gone)) first_gone) =
    Raise ValueError ∧
  sent (snd (broadcast_live [peer_gone 1%nat "" 0] (state_data (radio_state first_gone)) first_gone)) =
    sent first_gone ++
      ((λ c, (c, Text (state_data (radio_state first_gone)))) <$>
         filter (λ c, c ∉ closed first_gone) []) ∧
  (∀ m, (2%nat, m) ∉
     (λ c, (c, Text (state_data (radio_state first_gone)))) <$>
       filter (λ c, c ∉ closed first_gone) []) ∧
  2%nat ∈ active_connections
    (snd (broadcast_live [peer_gone 1%nat "" 0] (state_data (radio_state first_gone)) first_gone)).
Proof.
  apply (broadcast_skips_after_disconnect 1%nat 2%nat []
           (state_data (radio_state first_gone))
           (Text (state_data (radio_state first_gone))) "" 0 first_gone).
  - reflexivity.
  - reflexivity.
  - apply (bool_decide_unpack _). vm_compute. exact I.
  - apply (bool_decide_unpack _). vm_compute. exact I.
Defined.

(** X11: a listener that connects while a song is current is registered and
    counted, and then [connect] raises [TypeError] from its broadcast.  The
    exception leaves [websocket_endpoint] before its [try], so nothing ever
    unregisters the socket on that path. *)
Theorem connect_with_song_raises (websocket : WebSocket) (w : World) (s : Song.t) :
  current_song (radio_state w) = Some s →
  websocket_open websocket w =
    (Raise TypeError,
     set_radio_state
       (with_listeners (len (active_connections w ++ [websocket])))
       (set_active_connections (active_connections w ++ [websocket]) w)).
Proof.
  intros Hs. unfold websocket_open, connect. run_M.
  rewrite (broadcast_radio_state_song _ s) by done. simpl.
  by destruct (active_connections w).
Qed.

Lemma connect_with_song_raises_witness :
  fst (websocket_open 4%nat (step (Play 10) (initial demo_db_full []))) =
    Raise TypeError ∧
  active_connections
    (snd (websocket_open 4%nat (step (Play 10) (initial demo_db_full [])))) =
    [4%nat] ∧
  listeners (radio_state
    (snd (websocket_open 4%nat (step (Play 10) (initial demo_db_full []))))) = 1.
Proof.
  rewrite (connect_with_song_raises 4%nat
             (step (Play 10) (initial demo_db_full [])) song_a eq_refl).
  split_and!; reflexivity.
Defined.

(** X12: a listener whose socket a broadcast found closed has been
    unregistered by that broadcast; when its own coroutine then sees the
    disconnect, [manager.disconnect] raises [ValueError] out of
    [websocket_endpoint], and the world is not touched. *)
Theorem disconnect_after_drop_raises (data : payload) (message : text)
    (websocket : WebSocket) (uuid : string) (now : datetime) (w : World) :
  json_dumps data = Ok message →
  NoDup (active_connections w) →
  websocket ∈ closed w →
  websocket_iteration websocket Gone uuid now (snd (broadcast data w)) =
    (Raise ValueError, snd (broadcast data w)).
Proof.
  intros Hj Hnd Hc.
  rewrite (broadcast_best_effort data message w Hj Hnd). simpl.
  unfold websocket_iteration. run_M. rewrite disconnect_eq. simpl.
  assert (list_remove websocket
            (filter (λ c, c ∉ closed w) (active_connections w)) = None)
    as ->; [|done].
  apply list_remove_None. intros Hin.
  apply list_elem_of_filter in Hin as [Hopen _]. by apply Hopen.
Qed.

Lemma disconnect_after_drop_raises_witness :
  websocket_iteration 2%nat Gone "" 0
    (snd (broadcast (state_data (radio_state three_listeners)) three_listeners)) =
  (Raise ValueError,
   snd (broadcast (state_data (radio_state three_listeners)) three_listeners)).
Proof.
  apply (disconnect_after_drop_raises (state_data (radio_state three_listeners))
           (Text (state_data (radio_state three_listeners)))).
  - reflexivity.
  - apply (bool_decide_unpack _). vm_compute. exact I.
  - apply (bool_decide_unpack _). vm_compute. exact I.
Defined.

(** ** Playlists in the store *)

Lemma update_one_addToSet_app (playlist_id song_id : string)
    (l1 l : list Playlist.t) :
  Forall (λ q, Playlist.id q ≠ playlist_id) l1 →
  update_one_addToSet playlist_id song_id (l1 ++ l) =
    (l1 ++ fst (update_one_addToSet playlist_id song_id l),
     snd (update_one_addToSet playlist_id song_id l)).
Proof.
  induction 1 as [|q l1 Hq _ IH]; simpl.
  - by destruct (update_one_addToSet _ _ l).
  - rewrite decide_False by done. by rewrite IH.
Qed.

Lemma add_song_to_playlist_cases (playlist_id song_id : string) (w : World) :
  (Forall (λ q, Playlist.id q ≠ playlist_id) (db_playlists (db w)) →
   add_song_to_playlist playlist_id song_id w =
     (Raise (HTTPException 404 "Playlist no encontrada"), w)) ∧
  (∀ l1 p l2,
     db_playlists (db w) = l1 ++ p :: l2 →
     Forall (λ q, Playlist.id q ≠ playlist_id) l1 →
     Playlist.id p = playlist_id →
     (song_id ∈ Playlist.songs p →
      add_song_to_playlist playlist_id song_id w =
        (Raise (HTTPException 404 "Playlist no encontrada"), w)) ∧
     (song_id ∉ Playlist.songs p →
      add_song_to_playlist playlist_id song_id w =
        (Ok (Message "Canción agregada a la playlist"),
         set_db (MkDb (db_songs (db w))
                   (l1 ++ Playlist.Build (Playlist.id p) (Playlist.name p)
                            (Playlist.songs p ++ [song_id])
                            (Playlist.created_date p) (Playlist.is_active p) :: l2)
                   (db_chat_messages (db w))) w))).
Proof.
  assert (∀ l, set_db (MkDb (db_songs (db w)) l (db_chat_messages (db w))) w = w
               ↔ l = db_playlists (db w)) as Same.
  { intros l. destruct w as [? ? [] ? ?]. simpl. split; [by intros [= ->]|by intros ->]. }
  split.
  - intros Hall. unfold add_song_to_playlist. run_M.
    pose proof (update_one_addToSet_app playlist_id song_id _ [] Hall) as E.
    rewrite app_nil_r in E. rewrite E. simpl. rewrite app_nil_r.
    f_equal. by apply Same.
  - intros l1 p l2 E Hl1 Hid.
    pose proof (update_one_addToSet_app playlist_id song_id _ (p :: l2) Hl1) as U.
    simpl in U. rewrite decide_True in U by done.
    unfold add_song_to_playlist. run_M. rewrite E, U.
    destruct (decide (song_id ∈ Playlist.songs p)) as [Hy|Hn]; simpl;
      (split; intros Hin; [|done]); [|done].
    f_equal. apply Same. by rewrite E.
Qed.

(** X13: [add_song_to_playlist] by cases.  With no playlist of that id it
    answers 404 and changes nothing; with the song already on the first
    playlist of that id it answers 404 "Playlist no encontrada" as well and
    changes nothing; otherwise it appends the song to that playlist, touches
    no other playlist and answers with its message. *)
Theorem add_song_to_playlist_outcome (playlist_id song_id : string) (w : World) :
  (Forall (λ q, Playlist.id q ≠ playlist_id) (db_playlists (db w)) →
   add_song_to_playlist playlist_id song_id w =
     (Raise (HTTPException 404 "Playlist no encontrada"), w)) ∧
  (∀ l1 p l2,
     db_playlists (db w) = l1 ++ p :: l2 →
     Forall (λ q, Playlist.id q ≠ playlist_id) l1 →
     Playlist.id p = playlist_id →
     (song_id ∈ Playlist.songs p →
      add_song_to_playlist playlist_id song_id w =
        (Raise (HTTPException 404 "Playlist no encontrada"), w)) ∧
     (song_id ∉ Playlist.songs p →
      add_song_to_playlist playlist_id song_id w =
        (Ok (Message "Canción agregada a la playlist"),
         set_db (MkDb (db_songs (db w))
                   (l1 ++ Playlist.Build (Playlist.id p) (Playlist.name p)
                            (Playlist.songs p ++ [song_id])
                            (Playlist.created_date p) (Playlist.is_active p) :: l2)
                   (db_chat_messages (db w))) w))).
Proof. apply add_song_to_playlist_cases. Qed.

Lemma add_song_to_playlist_outcome_witness :
  add_song_to_playlist "q" "a" (initial demo_db_full []) =
    (Raise (HTTPException 404 "Playlist no encontrada"), initial demo_db_full []) ∧
  add_song_to_playlist "p" "a" (initial demo_db_full []) =
    (Raise (HTTPException 404 "Playlist no encontrada"), initial demo_db_full []) ∧
  add_song_to_playlist "p" "c" (initial demo_db_full []) =
    (Ok (Message "Canción agregada a la playlist"),
     set_db (MkDb [song_a; song_b]
               [Playlist.Build "p" "Tarde" ["a"; "b"; "c"] 50 true] [])
            (initial demo_db_full [])).
Proof.
  split_and!.
  - apply (proj1 (add_song_to_playlist_outcome "q" "a" (initial demo_db_full []))).
    repeat constructor. discriminate.
  - apply (proj2 (add_song_to_playlist_outcome "p" "a" (initial demo_db_full []))
             [] (Playlist.Build "p" "Tarde" ["a"; "b"] 50 true) []);
      [reflexivity | constructor | reflexivity |].
    apply list_elem_of_here.
  - apply (proj2 (add_song_to_playlist_outcome "p" "c" (initial demo_db_full []))
             [] (Playlist.Build "p" "Tarde" ["a"; "b"] 50 true) []);
      [reflexivity | constructor | reflexivity |].
    apply (bool_decide_unpack _). vm_compute. exact I.
Defined.

Lemma duplicate_free_change (w w' : World) :
  change w w' → duplicate_free (db w) → duplicate_free (db w').
Proof. intros Hc Hd. destruct Hc; simpl; try done. by apply H. Qed.

Lemma duplicate_free_changes (w w' : World) :
  rtc change w w' → duplicate_free (db w) → duplicate_free (db w').
Proof. induction 1; eauto using duplicate_free_change. Qed.

(** X14: playlists are sets.  When no playlist of the store lists a song
    twice and the store changes only through the API, then after every call
    no playlist lists a song twice, however often the same song is added. *)
Theorem playlists_stay_duplicate_free (calls : list call) (d : Db)
    (c : list WebSocket) :
  duplicate_free d →
  Forall through_api calls →
  Forall (λ w, duplicate_free (db w)) (session calls (initial d c)).
Proof.
  intros Hd Hcalls.
  assert (duplicate_free (db (initial d c))) as Hw by done.
  revert Hw. generalize (initial d c).
  induction Hcalls as [|call calls Hc _ IH]; intros w Hw; simpl; constructor.
  - by apply (duplicate_free_changes w); [apply changes_step_call|].
  - apply IH. by apply (duplicate_free_changes w); [apply changes_step_call|].
Qed.

Lemma playlists_stay_duplicate_free_witness :
  Forall (λ w, duplicate_free (db w))
         (session [CreatePlaylist "Noche" "n" 1; Core (AddSong "n" "a");
                   Core (AddSong "n" "a"); Core (AddSong "n" "b")]
                  (initial (MkDb [song_a; song_b] [] []) [])).
Proof.
  apply (playlists_stay_duplicate_free
           [CreatePlaylist "Noche" "n" 1; Core (AddSong "n" "a");
            Core (AddSong "n" "a"); Core (AddSong "n" "b")]
           (MkDb [song_a; song_b] [] []) []).
  - constructor.
  - repeat constructor.
Defined.

(** X15: a playlist just created takes a song.  When the id drawn for it is
    not in use, [create_playlist] followed by [add_song_to_playlist] on that
    id succeeds and leaves the new playlist, inactive, last in the store
    with exactly that song. *)
Theorem created_playlist_takes_song (name uuid song_id : string) (now : datetime)
    (w : World) :
  Forall (λ q, Playlist.id q ≠ uuid) (db_playlists (db w)) →
  fst (create_playlist name uuid now w) = Ok (Playlist.Build uuid name [] now false) ∧
  fst (add_song_to_playlist uuid song_id (snd (create_playlist name uuid now w))) =
    Ok (Message "Canción agregada a la playlist") ∧
  db_playlists (db (snd (add_song_to_playlist uuid song_id
                           (snd (create_playlist name uuid now w))))) =
    db_playlists (db w) ++ [Playlist.Build uuid name [song_id] now false].
Proof.
  intros Hfresh. split; [done|].
  destruct (proj2 (add_song_to_playlist_cases uuid song_id
                     (snd (create_playlist name uuid now w)))
              (db_playlists (db w)) (Playlist.Build uuid name [] now false) [])
    as [_ ->]; try done.
  apply not_elem_of_nil.
Qed.

Lemma created_playlist_takes_song_witness :
  fst (create_playlist "Noche" "n" 60 (initial demo_db_full [])) =
    Ok (Playlist.Build "n" "Noche" [] 60 false) ∧
  fst (add_song_to_playlist "n" "b"
         (snd (create_playlist "Noche" "n" 60 (initial demo_db_full [])))) =
    Ok (Message "Canción agregada a la playlist") ∧
  db_playlists (db (snd (add_song_to_playlist "n" "b"
                           (snd (create_playlist "Noche" "n" 60
                                   (initial demo_db_full [])))))) =
    db_playlists (db (initial demo_db_full [])) ++
      [Playlist.Build "n" "Noche" ["b"] 60 false].
Proof.
  apply (created_playlist_takes_song "Noche" "n" "b" 60 (initial demo_db_full [])).
  repeat constructor. discriminate.
Defined.

(** ** Uploading *)

Lemma upload_song_cases (file : UploadFile) (env : UploadEnv) (w : World) :
  (∃ song,
     upload_song file env w =
       (Ok (SongBody song),
        set_db (MkDb (db_songs (db w) ++ [song]) (db_playlists (db w))
                     (db_chat_messages (db w))) w) ∧
     accepted file env ∧
     Song.id song = uuid_song env ∧
     Song.file_size song = len (content file) ∧
     Song.upload_date song = utcnow env ∧
     Song.filename song =
       uuid_filename env +:+ "." +:+
       List.last (split_dot (upload_filename file)) EmptyString) ∨
  (∃ detail,
     upload_song file env w = (Raise (HTTPException 500 detail), w) ∧
     ¬ accepted file env).
Proof.
  unfold upload_song, upload_song_body, accepted. run_M.
  destruct (content_type file) as [ct|] eqn:Ect; simpl.
  2:{ right. eexists. split; [done|]. by intros [(ct & [=] & _) _]. }
  destruct (String.prefix "audio/" ct) eqn:Ep; simpl.
  2:{ right. eexists. split; [done|]. intros [(ct' & [= <-] & Hp) _]. congruence. }
  destruct (write_error env) as [msg|] eqn:Ew; simpl.
  { right. eexists. split; [done|]. by intros [_ [=]]. }
  left. destruct (extract_metadata file (probe env)) as [[title artist] duration].
  simpl. eexists. split; [done|]. split_and!; try done. by exists ct.
Qed.

(** X16: [upload_song] has two outcomes only.  Either it returns the new
    song, which is then the one record appended to the song collection, with
    the drawn id, the size of the content, the upload time and the stored
    file name made of the drawn name and the extension; or it raises an
    [HTTPException] with status 500 and leaves the world as it was.  It
    never answers 4xx and never stores a song it reports as failed. *)
Theorem upload_song_outcome (file : UploadFile) (env : UploadEnv) (w : World) :
  (∃ song,
     upload_song file env w =
       (Ok (SongBody song),
        set_db (MkDb (db_songs (db w) ++ [song]) (db_playlists (db w))
                     (db_chat_messages (db w))) w) ∧
     accepted file env ∧
     Song.id song = uuid_song env ∧
     Song.file_size song = len (content file) ∧
     Song.upload_date song = utcnow env ∧
     Song.filename song =
       uuid_filename env +:+ "." +:+
       List.last (split_dot (upload_filename file)) EmptyString) ∨
  (∃ detail,
     upload_song file env w = (Raise (HTTPException 500 detail), w) ∧
     ¬ accepted file env).
Proof. apply upload_song_cases. Qed.

(** X17: metadata falls back.  An accepted upload whose probe raises,
    returns nothing or finds neither [TIT2] nor [TPE1] still succeeds, and
    the song it stores is titled with the uploaded file's name and credited
    to "Artista Desconocido". *)
Theorem upload_song_untagged (file : UploadFile) (env : UploadEnv) (w : World) :
  accepted file env →
  untagged (probe env) →
  ∃ song,
    fst (upload_song file env w) = Ok (SongBody song) ∧
    db_songs (db (snd (upload_song file env w))) = db_songs (db w) ++ [song] ∧
    Song.title song = upload_filename file ∧
    Song.artist song = "Artista Desconocido".
Proof.
  intros [(ct & Hct & Hp) Hw] Hu.
  unfold upload_song, upload_song_body. run_M.
  rewrite Hct, Hp, Hw. simpl.
  destruct (probe env) as [| |has_tags t a d]; simpl in *.
  - eexists. split_and!; done.
  - eexists. split_and!; done.
  - destruct Hu as [-> ->]. destruct has_tags, d; simpl; eexists; split_and!; done.
Qed.

Lemma upload_song_untagged_witness :
  ∃ song,
    fst (upload_song audio_file demo_env (initial demo_db [])) = Ok (SongBody song) ∧
    db_songs (db (snd (upload_song audio_file demo_env (initial demo_db [])))) =
      db_songs (db (initial demo_db [])) ++ [song] ∧
    Song.title song = upload_filename audio_file ∧
    Song.artist song = "Artista Desconocido".
Proof.
  apply (upload_song_untagged audio_file demo_env (initial demo_db [])).
  - split; [|reflexivity]. exists "audio/mpeg". split; reflexivity.
  - exact I.
Defined.

(** ** File names *)

Lemma split_dot_cons (s : string) : ∃ h t, split_dot s = h :: t.
Proof.
  induction s as [|c s (h & t & IH)]; simpl; [by eexists _, _|].
  rewrite IH. destruct (Ascii.eqb c "."); by eexists _, _.
Qed.

(** X18: splitting a file name at its dots loses nothing, and a name
    without a dot is its own extension.  Joining the pieces of
    [split('.')] with dots gives the name back; the pieces are never none;
    and when the name has no dot, the last piece, which [upload_song] takes
    for the extension, is the whole name. *)
Theorem split_dot_join (s : string) :
  join_dot (split_dot s) = s ∧
  split_dot s ≠ [] ∧
  (has_dot s = false → List.last (split_dot s) EmptyString = s).
Proof.
  split_and!.
  - induction s as [|c s IH]; simpl; [done|].
    destruct (split_dot_cons s) as (h & t & E). rewrite E in *.
    destruct (Ascii.eqb c ".") eqn:Ec.
    + apply Ascii.eqb_eq in Ec as ->. simpl in *.
      destruct t; simpl in *; by rewrite IH.
    + simpl in *. destruct t; simpl in *; by rewrite <- IH.
  - destruct (split_dot_cons s) as (h & t & ->). done.
  - intros Hd. assert (split_dot s = [s]) as ->; [|done].
    induction s as [|c s IH]; simpl in *; [done|].
    apply orb_false_iff in Hd as [Hc Hs]. rewrite (IH Hs). by rewrite Hc.
Qed.

Lemma split_dot_join_witness :
  join_dot (split_dot "tema.final.mp3") = "tema.final.mp3" ∧
  split_dot "tema.final.mp3" ≠ [] ∧
  List.last (split_dot "grabacion") EmptyString = "grabacion".
Proof.
  split_and!.
  - apply (proj1 (split_dot_join "tema.final.mp3")).
  - apply (proj1 (proj2 (split_dot_join "tema.final.mp3"))).
  - apply (proj2 (proj2 (split_dot_join "grabacion"))). reflexivity.
Defined.

(** ** Listing and deleting songs *)

(** X19: an uploaded song is listed by [get_songs], with its upload date
    cut to the millisecond, as long as the collection held fewer than 1000
    songs before: the list is then the earlier list followed by that
    record, which is the returned song exactly when the upload date was a
    whole number of milliseconds.  From 1000 songs on, [get_songs] returns
    the same first 1000 as before and the new song does not appear. *)
Theorem uploaded_song_listed (file : UploadFile) (env : UploadEnv) (w w' : World)
    (song : Song.t) :
  upload_song file env w = (Ok (SongBody song), w') →
  ((length (db_songs (db w)) < 1000)%nat →
   get_songs w' =
     (Ok ((stored_song <$> db_songs (db w)) ++ [stored_song song]), w') ∧
   fst (get_songs w) = Ok (stored_song <$> db_songs (db w))) ∧
  (stored_song song = song ↔ Song.upload_date song mod 1000 = 0) ∧
  ((1000 ≤ length (db_songs (db w)))%nat →
   fst (get_songs w') = fst (get_songs w)).
Proof.
  intros Hup.
  destruct (upload_song_cases file env w) as [(song' & E & _)|(detail & E & _)];
    rewrite E in Hup; [|done].
  injection Hup as -> <-. unfold get_songs. run_M. split_and!.
  - intros Hlen. rewrite !take_ge by (rewrite ?length_app; simpl; lia).
    by rewrite fmap_app.
  - unfold stored_song, stored_datetime. destruct song as [i t a f d z u].
    simpl. split.
    + intros [= Hu]. rewrite Z.mod_eq by lia. lia.
    + intros Hu. f_equal. rewrite Z.mod_eq in Hu by lia. lia.
  - intros Hlen. by rewrite take_app_le.
Qed.

Lemma uploaded_song_listed_witness :
  get_songs (snd (upload_song audio_file demo_env (initial demo_db []))) =
    (Ok ((stored_song <$> db_songs (db (initial demo_db []))) ++
         [Song.Build "9d41" "tema.final.mp3" "Artista Desconocido" "0b5c.mp3"
            0%float 0 0]),
     snd (upload_song audio_file demo_env (initial demo_db []))) ∧
  fst (upload_song audio_file demo_env (initial demo_db [])) =
    Ok (SongBody (Song.Build "9d41" "tema.final.mp3" "Artista Desconocido"
                    "0b5c.mp3" 0%float 0 120)).
Proof.
  split; [|reflexivity].
  apply (proj1 (uploaded_song_listed audio_file demo_env (initial demo_db [])
                  (snd (upload_song audio_file demo_env (initial demo_db [])))
                  (Song.Build "9d41" "tema.final.mp3" "Artista Desconocido"
                     "0b5c.mp3" 0%float 0 120)
                  eq_refl)).
  simpl. lia.
Defined.

Lemma delete_one_song_app (song_id : string) (l1 l : list Song.t) :
  Forall (λ s, Song.id s ≠ song_id) l1 →
  delete_one_song song_id (l1 ++ l) =
    (l1 ++ fst (delete_one_song song_id l), snd (delete_one_song song_id l)).
Proof.
  induction 1 as [|s l1 Hs _ IH]; simpl.
  - by destruct (delete_one_song song_id l).
  - rewrite decide_False by done. by rewrite IH.
Qed.

Lemma filter_none (song_id : string) (l : list Song.t) :
  Forall (λ s, Song.id s ≠ song_id) l →
  filter (λ s, Song.id s = song_id) l = [].
Proof.
  induction 1 as [|s l Hs _ IH]; [done|].
  rewrite filter_cons. by rewrite decide_False.
Qed.

(** X20: [delete_song] by cases.  With no song of that id it answers 404
    and changes nothing.  Otherwise it removes the first song of that id
    from the collection and nothing else; and when no other song carries
    the id, it removes no file: the lookup for the file name runs after the
    record is gone, so the file of the deleted song stays in the upload
    directory. *)
Theorem delete_song_outcome (song_id : string) (removable : string → bool)
    (w : World) :
  (Forall (λ s, Song.id s ≠ song_id) (db_songs (db w)) →
   delete_song song_id removable w =
     (Raise (HTTPException 404 "Canción no encontrada"), w)) ∧
  (∀ l1 s l2,
     db_songs (db w) = l1 ++ s :: l2 →
     Forall (λ q, Song.id q ≠ song_id) l1 →
     Song.id s = song_id →
     snd (delete_song song_id removable w) =
       set_db (MkDb (l1 ++ l2) (db_playlists (db w)) (db_chat_messages (db w))) w ∧
     (Forall (λ q, Song.id q ≠ song_id) l2 →
      fst (delete_song song_id removable w) = Ok (Message "Canción eliminada", None))).
Proof.
  split.
  - intros Hall. unfold delete_song. run_M.
    pose proof (delete_one_song_app song_id _ [] Hall) as E.
    rewrite app_nil_r in E. rewrite E. simpl. rewrite app_nil_r.
    f_equal. by destruct w as [? ? [] ? ?].
  - intros l1 s l2 E Hl1 Hid.
    pose proof (delete_one_song_app song_id _ (s :: l2) Hl1) as U.
    simpl in U. rewrite decide_True in U by done.
    unfold delete_song. run_M. rewrite E, U. simpl. split; [done|].
    intros Hl2. rewrite filter_app, (filter_none _ _ Hl1), (filter_none _ _ Hl2).
    done.
Qed.

Lemma delete_song_outcome_witness :
  delete_song "z" (λ _, true) (initial demo_db []) =
    (Raise (HTTPException 404 "Canción no encontrada"), initial demo_db []) ∧
  snd (delete_song "a" (λ _, true) (initial demo_db [])) =
    set_db (MkDb [song_b] (db_playlists demo_db) []) (initial demo_db []) ∧
  fst (delete_song "a" (λ _, true) (initial demo_db [])) =
    Ok (Message "Canción eliminada", None).
Proof.
  split_and!.
  - apply (proj1 (delete_song_outcome "z" (λ _, true) (initial demo_db []))).
    repeat constructor; discriminate.
  - apply (proj2 (delete_song_outcome "a" (λ _, true) (initial demo_db []))
             [] song_a [song_b]); [reflexivity | constructor | reflexivity].
  - apply (proj2 (delete_song_outcome "a" (λ _, true) (initial demo_db []))
             [] song_a [song_b]); [reflexivity | constructor | reflexivity |].
    repeat constructor. discriminate.
Defined.

(** ** Chat *)

(** X21: [send_chat_message] stores the message first and broadcasts
    second, and the broadcast cannot serialise a chat message: with nobody
    connected the call returns the message, with anybody connected it
    raises [TypeError]; the message is in the collection either way, and
    nothing is sent and nobody unregistered. *)
Theorem send_chat_message_outcome (username message uuid : string)
    (now : datetime) (w : World) :
  send_chat_message username message uuid now w =
    (match active_connections w with
     | [] => Ok (ChatMessage.Build uuid username message now)
     | _ :: _ => Raise TypeError
     end,
     set_db (MkDb (db_songs (db w)) (db_playlists (db w))
               (db_chat_messages (db w) ++
                  [ChatMessage.Build uuid username message now])) w).
Proof.
  unfold send_chat_message. run_M. rewrite broadcast_chat. simpl.
  by destruct (active_connections w).
Qed.

(** X22: a chat frame on the live connection.  An object tagged ["chat"]
    whose name and text are strings (or absent, which gives "Anónimo" and
    the empty text) is stored as a chat message, and then the broadcast
    raises [TypeError] out of the coroutine as soon as any socket, the
    sender's included, is registered; only with an empty registry does the
    loop go on. *)
Theorem chat_frame_outcome (websocket : WebSocket) (items : list (string * pyval))
    (uuid username body : string) (now : datetime) (w : World) :
  assoc "type" items = Some (PStr "chat") →
  str_field (match assoc "username" items with
             | Some v => v
             | None => PStr "Anónimo"
             end) = Ok username →
  str_field (match assoc "message" items with
             | Some v => v
             | None => PStr ""
             end) = Ok body →
  websocket_iteration websocket (TextFrame (JSONText (PDict items))) uuid now w =
    (match active_connections w with
     | [] => Ok Receiving
     | _ :: _ => Raise TypeError
     end,
     set_db (MkDb (db_songs (db w)) (db_playlists (db w))
               (db_chat_messages (db w) ++
                  [ChatMessage.Build uuid username body now])) w).
Proof.
  intros Ht Hu Hb. unfold websocket_iteration, on_text. run_M.
  rewrite Ht. simpl. rewrite Hu. simpl. rewrite Hb. simpl.
  rewrite broadcast_chat. simpl. by destruct (active_connections w).
Qed.

Lemma chat_frame_outcome_witness :
  websocket_iteration 1%nat
    (TextFrame (JSONText (PDict [("type", PStr "chat"); ("message", PStr "hola")])))
    "c1" 70 one_listener =
  (Raise TypeError,
   set_db (MkDb (db_songs (db one_listener)) (db_playlists (db one_listener))
             (db_chat_messages (db one_listener) ++
                [ChatMessage.Build "c1" "Anónimo" "hola" 70])) one_listener).
Proof.
  apply (chat_frame_outcome 1%nat
           [("type", PStr "chat"); ("message", PStr "hola")]
           "c1" "Anónimo" "hola" 70 one_listener); reflexivity.
Defined.

(** ** Walking the playlist *)

Lemma found_at_NoDup (l : list Song.t) (i : nat) (s : Song.t) :
  NoDup (Song.id <$> l) → l !! i = Some s → found_at (Song.id s) l i.
Proof.
  intros Hnd Hi. split; [by exists s|].
  intros j s' Hj Hs' Hid.
  assert (j = i); [|lia].
  apply (NoDup_lookup (Song.id <$> l) j i (Song.id s) Hnd);
    rewrite list_lookup_fmap; [rewrite Hs'; simpl; by rewrite Hid | by rewrite Hi].
Qed.

Lemma next_song_at_index (now : datetime) (w : World) (i : nat) (cur : Song.t) :
  NoDup (Song.id <$> playlist (radio_state w)) →
  playlist (radio_state w) !! i = Some cur →
  current_song (radio_state w) = Some cur →
  radio_state (snd (next_song now w)) =
    match playlist (radio_state w) !! S i with
    | Some nxt => moved_to nxt now (radio_state w)
    | None => radio_state w
    end.
Proof.
  intros Hnd Hi Hc. pose proof (found_at_NoDup _ _ _ Hnd Hi) as Hf.
  unfold next_song, advance. run_M. rewrite Hc.
  destruct (playlist (radio_state w)) as [|s0 l] eqn:El; [done|].
  rewrite (index_of_id_found _ _ _ Hf).
  destruct ((s0 :: l) !! S i) as [nxt|] eqn:Hn.
  - pose proof (lookup_lt_Some _ _ _ Hn) as Hlt.
    replace (negb (Z.of_nat i =? -1) && (Z.of_nat i <? len (s0 :: l) - 1))
      with true.
    2:{ symmetry. apply andb_true_iff. split.
        - apply negb_true_iff, Z.eqb_neq. lia.
        - apply Z.ltb_lt. unfold len. lia. }
    replace (Z.to_nat (Z.of_nat i + 1)) with (S i) by lia.
    rewrite Hn. rewrite (broadcast_radio_state_song _ nxt) by done.
    simpl. by destruct (active_connections w).
  - apply lookup_ge_None in Hn.
    replace (Z.of_nat i <? len (s0 :: l) - 1) with false;
      [by rewrite andb_false_r|].
    symmetry. apply Z.ltb_ge. unfold len. lia.
Qed.

(** X23: [next_song] walks the playlist forward and stops at its end.  On a
    playlist with distinct song ids, with the entry at index [i] current,
    any number of calls in a row leaves current the entry [n] places
    further, or the last entry when there are fewer than [n] left; it never
    wraps to the first. *)
Theorem next_song_walks (times : list datetime) (w : World) (i : nat) (cur : Song.t) :
  NoDup (Song.id <$> playlist (radio_state w)) →
  playlist (radio_state w) !! i = Some cur →
  current_song (radio_state w) = Some cur →
  current_song (radio_state (run (Next <$> times) w)) =
    playlist (radio_state w)
      !! ((i + length times) `min` (length (playlist (radio_state w)) - 1))%nat.
Proof.
  revert w i cur. induction times as [|now times IH]; intros w i cur Hnd Hi Hc.
  - simpl. pose proof (lookup_lt_Some _ _ _ Hi).
    replace ((i + 0) `min` (length (playlist (radio_state w)) - 1))%nat with i by lia.
    by rewrite Hi.
  - change (run (Next <$> now :: times) w)
      with (run (Next <$> times) (snd (next_song now w))).
    change (length (now :: times)) with (S (length times)).
    pose proof (next_song_at_index now w i cur Hnd Hi Hc) as E.
    pose proof (lookup_lt_Some _ _ _ Hi) as Hlt.
    destruct (playlist (radio_state w) !! S i) as [nxt|] eqn:Hn.
    + assert (playlist (radio_state (snd (next_song now w))) =
              playlist (radio_state w)) as Hpl by by rewrite E.
      assert (current_song (radio_state (snd (next_song now w))) = Some nxt)
        as Hcur by by rewrite E.
      rewrite (IH (snd (next_song now w)) (S i) nxt); rewrite ?Hpl; try done.
      f_equal. lia.
    + apply lookup_ge_None in Hn.
      rewrite (IH (snd (next_song now w)) i cur); rewrite ?E; try done.
      f_equal. lia.
Qed.

Lemma next_song_walks_witness :
  current_song (radio_state (run (Next <$> [11; 12; 13]) on_air)) =
  playlist (radio_state on_air)
    !! ((0 + length [11; 12; 13]) `min`
          (length (playlist (radio_state on_air)) - 1))%nat.
Proof.
  apply (next_song_walks [11; 12; 13] on_air 0%nat song_a).
  - apply (bool_decide_unpack _). vm_compute. exact I.
  - reflexivity.
  - reflexivity.
Defined.

(** ** Coming and going *)

Lemma filter_all_open (cl l : list WebSocket) :
  (∀ c, c ∈ l → c ∉ cl) →
  filter (λ c, c ∉ cl) l = l ∧ filter (λ c, c ∈ cl) l = [].
Proof.
  induction l as [|c l IH]; intros Hopen; [done|].
  destruct IH as [E1 E2]; [intros c' Hc'; apply Hopen; by right|].
  assert (c ∉ cl) as Hc by (apply Hopen; left).
  rewrite !filter_cons, decide_True, decide_False by (try done; by intros H).
  by rewrite E1, E2.
Qed.

(** X24: a listener that connects and leaves.  On a radio without a current
    song, with every registered socket distinct and open, registering a new
    open socket and then unregistering it both succeed, and the registry is
    as before with the listener count equal to its size. *)
Theorem register_then_unregister (websocket : WebSocket) (w : World) :
  current_song (radio_state w) = None →
  NoDup (active_connections w) →
  websocket ∉ active_connections w →
  (∀ c, c ∈ active_connections w ++ [websocket] → c ∉ closed w) →
  fst (websocket_open websocket w) = Ok tt ∧
  fst (disconnect websocket (step (Register websocket) w)) = Ok tt ∧
  active_connections (run [Register websocket; Unregister websocket] w) =
    active_connections w ∧
  listeners (radio_state (run [Register websocket; Unregister websocket] w)) =
    len (active_connections w).
Proof.
  intros Hs Hnd Hnew Hopen.
  destruct (filter_all_open (closed w) (active_connections w ++ [websocket]) Hopen)
    as [Hall Hnone].
  assert (NoDup (active_connections w ++ [websocket])) as Hnd'.
  { apply NoDup_app. split_and!; [done| |apply NoDup_singleton].
    intros x Hx Hx'. apply list_elem_of_singleton in Hx'. by subst. }
  assert (websocket_open websocket w =
          (Ok tt,
           set_sent (sent w ++
                       ((λ c, (c, snapshot (radio_state w)
                                    (len (active_connections w ++ [websocket]))))
                          <$> (active_connections w ++ [websocket])))
             (set_radio_state
                (with_listeners (len (active_connections w ++ [websocket])))
                (set_active_connections (active_connections w ++ [websocket]) w))))
    as Eopen.
  { unfold websocket_open, connect, broadcast_radio_state. run_M.
    match goal with |- broadcast ?d ?w1 = _ =>
      rewrite (broadcast_best_effort d (Text d) w1) end; simpl.
    - rewrite Hall, Hnone. unfold snapshot, state_data. simpl. rewrite Hs.
      reflexivity.
    - unfold state_data. simpl. by rewrite Hs.
    - done. }
  unfold run. simpl. rewrite Eopen. simpl. rewrite disconnect_eq. simpl.
  rewrite list_remove_app_cons by done. rewrite app_nil_r. done.
Qed.

Lemma register_then_unregister_witness :
  fst (websocket_open 2%nat one_listener) = Ok tt ∧
  fst (disconnect 2%nat (step (Register 2%nat) one_listener)) = Ok tt ∧
  active_connections (run [Register 2%nat; Unregister 2%nat] one_listener) =
    active_connections one_listener ∧
  listeners (radio_state (run [Register 2%nat; Unregister 2%nat] one_listener)) =
    len (active_connections one_listener).
Proof.
  apply (register_then_unregister 2%nat one_listener).
  - reflexivity.
  - apply (bool_decide_unpack _). vm_compute. exact I.
  - apply (bool_decide_unpack _). vm_compute. exact I.
  - intros c Hc. apply not_elem_of_nil.
Defined.

(** ** Frames *)

(** X25: a position update frame.  An object tagged ["position_update"]
    makes [current_position] whatever its ["position"] holds, a number or
    not, and [0.0] when the key is missing; the loop goes on and nothing
    else in the world changes. *)
Theorem position_frame_outcome (websocket : WebSocket)
    (items : list (string * pyval)) (uuid : string) (now : datetime) (w : World) :
  assoc "type" items = Some (PStr "position_update") →
  websocket_iteration websocket (TextFrame (JSONText (PDict items))) uuid now w =
    (Ok Receiving,
     set_radio_state
       (with_current_position
          (match assoc "position" items with
           | Some v => v
           | None => PFloat 0%float
           end)) w).
Proof.
  intros Ht. unfold websocket_iteration, on_text. run_M. by rewrite Ht.
Qed.

Lemma position_frame_outcome_witness :
  websocket_iteration 1%nat
    (TextFrame (JSONText (PDict [("type", PStr "position_update")])))
    "" 0 (step (ReportPosition 1%nat (PStr "más tarde")) one_listener) =
  (Ok Receiving,
   set_radio_state (with_current_position (PFloat 0%float))
     (step (ReportPosition 1%nat (PStr "más tarde")) one_listener)).
Proof.
  apply (position_frame_outcome 1%nat [("type", PStr "position_update")] "" 0
           (step (ReportPosition 1%nat (PStr "más tarde")) one_listener)).
  reflexivity.
Defined.

(** X26: frames the loop drops.  A frame that is not JSON, and an object
    whose ["type"] is missing or is anything but the two known tags, leave
    the world exactly as it was, and the loop goes on to the next frame. *)
Theorem dropped_frames (websocket : WebSocket) (uuid : string) (now : datetime)
    (w : World) :
  (∀ raw,
     websocket_iteration websocket (TextFrame (NotJSON raw)) uuid now w =
       (Ok Receiving, w)) ∧
  (∀ items,
     assoc "type" items ≠ Some (PStr "position_update") →
     assoc "type" items ≠ Some (PStr "chat") →
     websocket_iteration websocket (TextFrame (JSONText (PDict items))) uuid now w =
       (Ok Receiving, w)).
Proof.
  split; [done|]. intros items H1 H2. apply unknown_tag_dropped.
  - destruct (assoc "type" items) as [[ | | | |s| | ]|]; simpl; try done.
    apply bool_decide_eq_false. intros ->. by apply H1.
  - destruct (assoc "type" items) as [[ | | | |s| | ]|]; simpl; try done.
    apply bool_decide_eq_false. intros ->. by apply H2.
Qed.

Lemma dropped_frames_witness :
  websocket_iteration 1%nat (TextFrame (NotJSON "{oops")) "" 0 one_listener =
    (Ok Receiving, one_listener) ∧
  websocket_iteration 1%nat
    (TextFrame (JSONText (PDict [("type", PStr "ping"); ("position", PInt 3)])))
    "" 0 one_listener = (Ok Receiving, one_listener).
Proof.
  split.
  - apply (proj1 (dropped_frames 1%nat "" 0 one_listener)).
  - apply (proj2 (dropped_frames 1%nat "" 0 one_listener)); discriminate.
Defined.

(** * Broadcasts and mutations *)





